(** * Stewart platform operator console: serial command path

    A shallow embedding of [GUI/stewart_platform.cpp]: the window object
    [StewartPlatform] with its serial port, its Leap Motion listener, the
    six actuator positions and the widgets its slots write to.

    Slots are state transformers.  [Q_ASSERT] is modelled as in a debug
    build: a failed assertion stops the program, so a slot yields an
    [outcome].  What the environment decides (the wall clock read by [log],
    whether the operating system opens the port) is an explicit argument
    of the slot that asks for it. *)

From Stdlib Require Import ZArith List String Ascii Bool Lia.
From Stdlib Require Import DecimalString DecimalZ DecimalPos DecimalFacts.
Import ListNotations.

Local Open Scope string_scope.
Local Open Scope Z_scope.

(** ** Text *)

(** The line feed that ends a command. *)
Definition LF : ascii := ascii_of_nat 10.
Definition newline : string := String LF "".

Fixpoint count_char (c : ascii) (s : string) : nat :=
  match s with
  | EmptyString => 0%nat
  | String d r => ((if Ascii.eqb c d then 1 else 0) + count_char c r)%nat
  end.

Fixpoint last_char (s : string) : option ascii :=
  match s with
  | EmptyString => None
  | String c EmptyString => Some c
  | String _ r => last_char r
  end.

Definition is_digit (c : ascii) : bool :=
  let n := nat_of_ascii c in (48 <=? n)%nat && (n <=? 57)%nat.

Fixpoint all_chars (p : ascii -> bool) (s : string) : bool :=
  match s with
  | EmptyString => true
  | String c r => p c && all_chars p r
  end.

(** Decimal text: one or more digits, after at most one minus sign. *)
Definition is_decimal (s : string) : bool :=
  match s with
  | EmptyString => false
  | String c r =>
      if Ascii.eqb c "-" then negb (String.eqb r "") && all_chars is_digit r
      else all_chars is_digit s
  end.

(** Text in which no place marker can start. *)
Definition no_percent (s : string) : bool :=
  all_chars (fun c => negb (Ascii.eqb c "%")) s.

(** Fields of a line: the maximal runs between single spaces. *)
Fixpoint fields_from (cur : string) (s : string) : list string :=
  match s with
  | EmptyString => [cur]
  | String c r =>
      if Ascii.eqb c " " then cur :: fields_from "" r
      else fields_from (cur ++ String c "") r
  end.

Definition fields (s : string) : list string := fields_from "" s.

Module QString.

(** [QString::number(int)]: base ten, a minus sign before a negative
    value, no padding and no group separators. *)
Definition number (n : Z) : string := NilZero.string_of_int (Z.to_int n).

(** Reading such text back. *)
Definition toInt (s : string) : option Z :=
  option_map Z.of_int (NilZero.int_of_string s).

(** *** Place markers, for [QString::arg]

    A marker is a percent sign, an optional [L], and one or two decimal
    digits.  A percent sign that starts no marker is ordinary text, and
    scanning resumes at the character that broke the marker. *)
Inductive piece : Type :=
| Text (c : ascii)
| Marker (n : nat) (raw : string).

Definition digitValue (c : ascii) : option nat :=
  if is_digit c then Some (nat_of_ascii c - 48)%nat else None.

Fixpoint pieces (s : string) : list piece :=
  match s with
  | EmptyString => []
  | String c r =>
      if Ascii.eqb c "%" then
        match r with
        | EmptyString => [Text c]
        | String l r1 =>
            if Ascii.eqb l "L" then
              match r1 with
              | EmptyString => [Text c; Text l]
              | String x r2 =>
                  match digitValue x with
                  | None => Text c :: Text l :: pieces r1
                  | Some n =>
                      match r2 with
                      | EmptyString => [Marker n (String c (String l (String x "")))]
                      | String y r3 =>
                          match digitValue y with
                          | Some m =>
                              Marker (10 * n + m)
                                     (String c (String l (String x (String y ""))))
                              :: pieces r3
                          | None =>
                              Marker n (String c (String l (String x ""))) :: pieces r2
                          end
                      end
                  end
              end
            else
              match digitValue l with
              | None => Text c :: pieces r
              | Some n =>
                  match r1 with
                  | EmptyString => [Marker n (String c (String l ""))]
                  | String y r3 =>
                      match digitValue y with
                      | Some m =>
                          Marker (10 * n + m) (String c (String l (String y "")))
                          :: pieces r3
                      | None => Marker n (String c (String l "")) :: pieces r1
                      end
                  end
              end
        end
      else Text c :: pieces r
  end.

Fixpoint min_escape (ps : list piece) : option nat :=
  match ps with
  | [] => None
  | Text _ :: r => min_escape r
  | Marker n _ :: r =>
      match min_escape r with
      | None => Some n
      | Some m => Some (Nat.min n m)
      end
  end.

Fixpoint replace (m : nat) (a : string) (ps : list piece) : string :=
  match ps with
  | [] => ""
  | Text c :: r => String c (replace m a r)
  | Marker n raw :: r =>
      (if Nat.eqb n m then a else raw) ++ replace m a r
  end.

(** [s.arg(a)]: every occurrence of the lowest-numbered marker of [s]
    becomes [a]; a string without markers is returned as it is. *)
Definition arg (s a : string) : string :=
  let ps := pieces s in
  match min_escape ps with
  | None => s
  | Some m => replace m a ps
  end.

End QString.

(** ** Assertions

    [Q_ASSERT(c)] with [c] false ends the run; so does indexing a
    [QVector] outside its bounds, which [operator[]] asserts. *)
Inductive assertion : Type :=
| serial_isOpen            (* Q_ASSERT(m_serial->isOpen()) *)
| index_in_range (i : nat) (* QVector<int>::operator[] *).

Inductive outcome (A : Type) : Type :=
| Returns (a : A)
| AssertionFailure (what : assertion).

Arguments Returns {A} a.
Arguments AssertionFailure {A} what.

Definition bind {A B : Type} (m : outcome A) (k : A -> outcome B) : outcome B :=
  match m with
  | Returns a => k a
  | AssertionFailure w => AssertionFailure w
  end.

Notation "x <- m ;; k" := (bind m (fun x => k))
  (at level 61, m at next level, right associativity).

Definition Q_ASSERT (c : bool) (w : assertion) : outcome unit :=
  if c then Returns tt else AssertionFailure w.

(** ** The serial port object *)
Module QSerialPort.

Inductive DataBits : Type := Data5 | Data6 | Data7 | Data8.
Inductive Parity : Type :=
  NoParity | EvenParity | OddParity | SpaceParity | MarkParity.
Inductive StopBits : Type := OneStop | OneAndHalfStop | TwoStop.
Inductive FlowControl : Type :=
  NoFlowControl | HardwareControl | SoftwareControl.

(** [written] is the sequence of byte strings handed to [write] so far:
    what the transport received. *)
Record t : Type := mk {
  isOpen : bool;
  portName : string;
  baudRate : Z;
  dataBits : DataBits;
  parity : Parity;
  stopBits : StopBits;
  flowControl : FlowControl;
  errorString : string;
  written : list string
}.

(** A port object straight from its constructor. *)
Definition fresh : t :=
  mk false "" 9600 Data8 NoParity OneStop NoFlowControl "Unknown error" [].

(** The setters are called on a closed port, where they only store. *)
Definition setPortName (n : string) (p : t) : t :=
  mk (isOpen p) n (baudRate p) (dataBits p) (parity p) (stopBits p)
     (flowControl p) (errorString p) (written p).
Definition setBaudRate (b : Z) (p : t) : t :=
  mk (isOpen p) (portName p) b (dataBits p) (parity p) (stopBits p)
     (flowControl p) (errorString p) (written p).
Definition setDataBits (d : DataBits) (p : t) : t :=
  mk (isOpen p) (portName p) (baudRate p) d (parity p) (stopBits p)
     (flowControl p) (errorString p) (written p).
Definition setParity (x : Parity) (p : t) : t :=
  mk (isOpen p) (portName p) (baudRate p) (dataBits p) x (stopBits p)
     (flowControl p) (errorString p) (written p).
Definition setStopBits (x : StopBits) (p : t) : t :=
  mk (isOpen p) (portName p) (baudRate p) (dataBits p) (parity p) x
     (flowControl p) (errorString p) (written p).
Definition setFlowControl (x : FlowControl) (p : t) : t :=
  mk (isOpen p) (portName p) (baudRate p) (dataBits p) (parity p)
     (stopBits p) x (errorString p) (written p).

Definition set_isOpen (b : bool) (p : t) : t :=
  mk b (portName p) (baudRate p) (dataBits p) (parity p) (stopBits p)
     (flowControl p) (errorString p) (written p).
Definition set_errorString (e : string) (p : t) : t :=
  mk (isOpen p) (portName p) (baudRate p) (dataBits p) (parity p)
     (stopBits p) (flowControl p) e (written p).

(** What the operating system answers to an attempt to open the device. *)
Inductive open_attempt : Type :=
| Opens
| Refused (description : string).

(** [open(QIODevice::ReadWrite)].  An open port refuses; otherwise the
    error is cleared and the device is tried. *)
Definition open (os : open_attempt) (p : t) : bool * t :=
  if isOpen p then (false, set_errorString "Device is already open" p)
  else
    match os with
    | Opens => (true, set_isOpen true (set_errorString "No error" p))
    | Refused e => (false, set_errorString e p)
    end.

Definition close (p : t) : t := set_isOpen false p.

(** [write] on a C string queues the bytes and returns at once; the
    caller here drops the returned count.  A closed device takes nothing. *)
Definition write (data : string) (p : t) : t :=
  if isOpen p then
    mk (isOpen p) (portName p) (baudRate p) (dataBits p) (parity p)
       (stopBits p) (flowControl p) (errorString p) (written p ++ [data])
  else p.

End QSerialPort.

(** ** The settings dialog *)
Module SerialSettingsDialog.

(** Modelled from the spec: the struct [Settings], declared in the
    dialog's header.  "Name, baud rate, data bits, parity, stop bits, flow
    control (plus human-readable string forms for logging)"; the field
    names are the ones [openSerialPort] reads. *)
Record Settings : Type := mkSettings {
  name : string;
  baudRate : Z;
  stringBaudRate : string;
  dataBits : QSerialPort.DataBits;
  stringDataBits : string;
  parity : QSerialPort.Parity;
  stringParity : string;
  stopBits : QSerialPort.StopBits;
  stringStopBits : string;
  flowControl : QSerialPort.FlowControl;
  stringFlowControl : string
}.

(** The strings that are followed by further [arg] calls when the
    connection is logged: a place marker inside one of them would be
    taken for a marker of the message. *)
Definition plain (p : Settings) : bool :=
  no_percent (name p) && no_percent (stringBaudRate p)
  && no_percent (stringDataBits p) && no_percent (stringParity p)
  && no_percent (stringStopBits p).

(** The dialog object: [settings()] returns what it currently holds. *)
Record t : Type := mk { settings : Settings }.

End SerialSettingsDialog.

(** ** The Leap Motion listener *)
Module LeapEventListener.

Record t : Type := mk { is_leap_enabled : bool }.

(** Modelled from the spec: the listener's frame callback, which lives
    in the listener's own source file.  The bridge is "gated by an enable
    flag": a frame carrying the six values [v] is emitted as
    [LeapFrameUpdate(v)] when [is_leap_enabled] is set and dropped
    otherwise. *)
Definition onFrame (v : list Z) (l : t) : option (list Z) :=
  if is_leap_enabled l then Some v else None.

End LeapEventListener.

(** ** The widgets the slots touch *)
Module Ui.

Record t : Type := mk {
  label_serial_val : string;  (* text of the serial status label *)
  label_leap_val : string;    (* text of the Leap status label *)
  button_send : bool;         (* enabled? *)
  actuatorBox : bool;         (* enabled? the box of fields and sliders *)
  log : list string           (* paragraphs of the log view *)
}.

Definition set_label_serial_val (s : string) (u : t) : t :=
  mk s (label_leap_val u) (button_send u) (actuatorBox u) (log u).
Definition set_label_leap_val (s : string) (u : t) : t :=
  mk (label_serial_val u) s (button_send u) (actuatorBox u) (log u).
Definition set_button_send (b : bool) (u : t) : t :=
  mk (label_serial_val u) (label_leap_val u) b (actuatorBox u) (log u).
Definition set_actuatorBox (b : bool) (u : t) : t :=
  mk (label_serial_val u) (label_leap_val u) (button_send u) b (log u).
Definition appendPlainText (s : string) (u : t) : t :=
  mk (label_serial_val u) (label_leap_val u) (button_send u) (actuatorBox u)
     (log u ++ [s]).

End Ui.

(** ** The main window *)

(** Modelled from the spec: the header's constant [NUM_ACTUATORS]; the
    platform has six actuators, and the constructor lists six positions,
    six fields and six sliders. *)
Definition NUM_ACTUATORS : nat := 6.

(** [tr] with no translation installed returns its source text. *)
Definition tr (s : string) : string := s.

(** [v[i] = j] on a vector. *)
Fixpoint assign (i : nat) (j : Z) (v : list Z) : list Z :=
  match v, i with
  | [], _ => []
  | _ :: r, O => j :: r
  | x :: r, S i' => x :: assign i' j r
  end.

Module StewartPlatform.

(** The positions are C++ [int]s; they are stored, compared with nothing
    and printed, never computed with, so [Z] stands for them without
    wrap-around. *)
Record t : Type := mk {
  ui : Ui.t;
  m_settings : SerialSettingsDialog.t;
  m_serial : QSerialPort.t;
  leap : LeapEventListener.t;
  actuator_positions : list Z
}.

Definition with_ui (f : Ui.t -> Ui.t) (w : t) : t :=
  mk (f (ui w)) (m_settings w) (m_serial w) (leap w) (actuator_positions w).
Definition with_serial (f : QSerialPort.t -> QSerialPort.t) (w : t) : t :=
  mk (ui w) (m_settings w) (f (m_serial w)) (leap w) (actuator_positions w).
Definition set_m_settings (d : SerialSettingsDialog.t) (w : t) : t :=
  mk (ui w) d (m_serial w) (leap w) (actuator_positions w).
Definition set_leap (l : LeapEventListener.t) (w : t) : t :=
  mk (ui w) (m_settings w) (m_serial w) l (actuator_positions w).
Definition set_actuator_positions (v : list Z) (w : t) : t :=
  mk (ui w) (m_settings w) (m_serial w) (leap w) v.

(** [log(entry)]; [now] is [QTime::currentTime().toString()]. *)
Definition log (now entry : string) (w : t) : t :=
  with_ui (Ui.appendPlainText ("(" ++ now ++ ") " ++ entry)) w.

(** The loop of [sendActuatorPositions], with [k] iterations left to
    run from index [i]: [s += number(actuator_pos[i]) + sep]. *)
Fixpoint sendActuatorPositions_loop
         (k i : nat) (actuator_pos : list Z) (s : string) : outcome string :=
  match k with
  | O => Returns s
  | S k' =>
      match nth_error actuator_pos i with
      | None => AssertionFailure (index_in_range i)
      | Some x =>
          sendActuatorPositions_loop k' (S i) actuator_pos
            (s ++ (QString.number x
                     ++ (if (i <? NUM_ACTUATORS - 1)%nat then " " else newline)))
      end
  end.

(** The string [s] that [sendActuatorPositions] builds; all of it is
    ASCII, so [qPrintable] hands over the same bytes. *)
Definition command_line (actuator_pos : list Z) : outcome string :=
  sendActuatorPositions_loop NUM_ACTUATORS 0 actuator_pos "".

Definition writeSerialData (data : string) (w : t) : outcome t :=
  _ <- Q_ASSERT (QSerialPort.isOpen (m_serial w)) serial_isOpen ;;
  Returns (with_serial (QSerialPort.write data) w).

Definition sendActuatorPositions (actuator_pos : list Z) (w : t) : outcome t :=
  s <- command_line actuator_pos ;;
  writeSerialData s w.

(** [incoming] is what [readAll()] returns. *)
Definition readSerialData (now incoming : string) (w : t) : outcome t :=
  _ <- Q_ASSERT (QSerialPort.isOpen (m_serial w)) serial_isOpen ;;
  Returns (log now incoming w).

Definition closeSerialPort (now : string) (w : t) : t :=
  if QSerialPort.isOpen (m_serial w) then
    let w := with_serial QSerialPort.close w in
    let w := log now (QString.arg (tr "<COM>  Disconnected from %1")
                                  (QSerialPort.portName (m_serial w))) w in
    let w := with_ui (Ui.set_label_serial_val (tr "Disconnected")) w in
    with_ui (Ui.set_button_send false) w
  else w.

(** The message [openSerialPort] logs on success: six chained [arg]
    calls on one template. *)
Definition connected_message (p : SerialSettingsDialog.Settings) : string :=
  QString.arg
    (QString.arg
       (QString.arg
          (QString.arg
             (QString.arg
                (QString.arg (tr "<COM>  Connected to %1 : %2, %3, %4, %5, %6")
                             (SerialSettingsDialog.name p))
                (SerialSettingsDialog.stringBaudRate p))
             (SerialSettingsDialog.stringDataBits p))
          (SerialSettingsDialog.stringParity p))
       (SerialSettingsDialog.stringStopBits p))
    (SerialSettingsDialog.stringFlowControl p).

(** [now1] is the clock at the log call of the closing step, [now2] at
    the log call of the opening step. *)
Definition openSerialPort
           (now1 now2 : string) (os : QSerialPort.open_attempt) (w : t) : t :=
  let w := closeSerialPort now1 w in
  let p := SerialSettingsDialog.settings (m_settings w) in
  let w := with_serial (QSerialPort.setPortName (SerialSettingsDialog.name p)) w in
  let w := with_serial (QSerialPort.setBaudRate (SerialSettingsDialog.baudRate p)) w in
  let w := with_serial (QSerialPort.setDataBits (SerialSettingsDialog.dataBits p)) w in
  let w := with_serial (QSerialPort.setParity (SerialSettingsDialog.parity p)) w in
  let w := with_serial (QSerialPort.setStopBits (SerialSettingsDialog.stopBits p)) w in
  let w := with_serial
             (QSerialPort.setFlowControl (SerialSettingsDialog.flowControl p)) w in
  let (ok, port) := QSerialPort.open os (m_serial w) in
  let w := with_serial (fun _ => port) w in
  if ok then
    let w := with_ui (Ui.set_label_serial_val
                        (QString.arg (tr "%1") (SerialSettingsDialog.name p))) w in
    let w := with_ui (Ui.set_button_send true) w in
    log now2 (connected_message p) w
  else
    log now2 (QString.arg (tr "<COM>  Connection error: %1")
                          (QSerialPort.errorString (m_serial w))) w.

Definition enableLeapMotion (c : bool) (w : t) : t :=
  let w := with_ui (Ui.set_actuatorBox (negb c)) w in
  set_leap (LeapEventListener.mk c) w.

Definition onLeapConnected (now : string) (connected : bool) (w : t) : t :=
  if connected then
    let w := with_ui (Ui.set_label_leap_val (tr "Connected")) w in
    log now (tr "<LEAP> Connected") w
  else
    let w := with_ui (Ui.set_label_leap_val (tr "Disconnected")) w in
    log now (tr "<LEAP> Disconnected") w.

(** The constructor.  [ui0] is the form as [setupUi] builds it,
    [dialog] and [listener] are the two collaborators as their own
    constructors leave them.  Setting the range of a field or slider
    happens before any signal of that pair is connected, so nothing here
    writes [actuator_positions] after its initialisation. *)
Definition constructor
           (ui0 : Ui.t) (dialog : SerialSettingsDialog.t)
           (listener : LeapEventListener.t) : t :=
  let w := mk ui0 dialog QSerialPort.fresh listener [0; 0; 0; 0; 0; 0] in
  let w := with_ui (Ui.set_label_serial_val (tr "Disconnected")) w in
  let w := with_ui (Ui.set_label_leap_val (tr "Disconnected")) w in
  with_ui (Ui.set_button_send false) w.

(** *** Signals connected in the constructor

    Each constructor below is one [connect] whose receiver is a slot of
    this file, with what the signal carries and what the slot reads from
    the environment. *)
Inductive signal : Type :=
| slider_valueChanged (i : nat) (j : Z)
| LeapConnected (now : string) (connected : bool)
| readyRead (now incoming : string)
| SettingsUpdated (dialog : SerialSettingsDialog.t)
                  (now1 now2 : string) (os : QSerialPort.open_attempt)
| errorOccurred (now : string)
| button_send_clicked
| enable_leap_motion_toggled (c : bool)
| LeapFrameUpdate (v : list Z).

Definition deliver (e : signal) (w : t) : outcome t :=
  match e with
  | slider_valueChanged i j =>
      (* one lambda per pair, for i below NUM_ACTUATORS *)
      if (i <? NUM_ACTUATORS)%nat then
        Returns (set_actuator_positions (assign i j (actuator_positions w)) w)
      else Returns w
  | LeapConnected now c => Returns (onLeapConnected now c w)
  | readyRead now incoming => readSerialData now incoming w
  | SettingsUpdated dialog now1 now2 os =>
      (* the dialog stores its new settings, then emits *)
      Returns (openSerialPort now1 now2 os (set_m_settings dialog w))
  | errorOccurred now => Returns (closeSerialPort now w)
  | button_send_clicked =>
      (* a disabled button emits nothing *)
      if Ui.button_send (ui w) then sendActuatorPositions (actuator_positions w) w
      else Returns w
  | enable_leap_motion_toggled c => Returns (enableLeapMotion c w)
  | LeapFrameUpdate v => sendActuatorPositions v w
  end.

(** A frame arriving at the Leap device: through the listener's gate,
    then the signal. *)
Definition leap_frame (v : list Z) (w : t) : outcome t :=
  match LeapEventListener.onFrame v (leap w) with
  | Some v' => deliver (LeapFrameUpdate v') w
  | None => Returns w
  end.

Fixpoint run (es : list signal) (w : t) : outcome t :=
  match es with
  | [] => Returns w
  | e :: r => w' <- deliver e w ;; run r w'
  end.

(** The states the window can be in: built by the constructor, then
    driven by signals and by device frames, none of which has failed an
    assertion. *)
Inductive reachable : t -> Prop :=
| reach_constructor ui0 dialog listener :
    reachable (constructor ui0 dialog listener)
| reach_deliver e w w' :
    reachable w -> deliver e w = Returns w' -> reachable w'
| reach_leap_frame v w w' :
    reachable w -> leap_frame v w = Returns w' -> reachable w'.

(** The send button is enabled exactly while the port is open. *)
Definition send_follows_connection (w : t) : Prop :=
  Ui.button_send (ui w) = QSerialPort.isOpen (m_serial w).

End StewartPlatform.

(** ** The wire format, as the specification words it

    "v1 v2 v3 v4 v5 v6\n": six decimal integers, single spaces between
    them, one line feed at the end.  [StewartPlatform.command_line] is
    compared with it below. *)
Definition wire_format (v1 v2 v3 v4 v5 v6 : Z) : string :=
  (QString.number v1 ++ " " ++ QString.number v2 ++ " " ++ QString.number v3
     ++ " " ++ QString.number v4 ++ " " ++ QString.number v5 ++ " "
     ++ QString.number v6 ++ newline)%string.

(** ** A session, for examples

    A form as the designer would leave it, the dialog set to COM3 at 9600
    baud, the listener not yet enabled. *)
Definition ui_form : Ui.t := Ui.mk "" "" true true [].

Definition COM3 : SerialSettingsDialog.Settings :=
  SerialSettingsDialog.mkSettings
    "COM3" 9600 "9600" QSerialPort.Data8 "8" QSerialPort.NoParity "None"
    QSerialPort.OneStop "1" QSerialPort.NoFlowControl "None".

(** The window after construction, and after COM3 has opened. *)
Definition session_start : StewartPlatform.t :=
  StewartPlatform.constructor ui_form (SerialSettingsDialog.mk COM3)
                              (LeapEventListener.mk false).

Definition session_connected : StewartPlatform.t :=
  StewartPlatform.openSerialPort "10:00:00" "10:00:00" QSerialPort.Opens session_start.

(** ** Reading a command line back

    What a receiver of the line can do: drop the final line feed, cut at
    the spaces and read six decimal integers. *)
Fixpoint chomp (s : string) : option string :=
  match s with
  | EmptyString => None
  | String c r =>
      match r with
      | EmptyString => if Ascii.eqb c LF then Some EmptyString else None
      | String _ _ => option_map (String c) (chomp r)
      end
  end.

Fixpoint read_all (fs : list string) : option (list Z) :=
  match fs with
  | [] => Some []
  | f :: r =>
      match QString.toInt f, read_all r with
      | Some x, Some xs => Some (x :: xs)
      | _, _ => None
      end
  end.

Definition decode (line : string) : option (list Z) :=
  match chomp line with
  | None => None
  | Some body =>
      let fs := fields body in
      if (List.length fs =? NUM_ACTUATORS)%nat then read_all fs else None
  end.

(** A line that reads back as six integers. *)
Definition is_command (line : string) : Prop :=
  exists v, decode line = Some v /\ List.length v = NUM_ACTUATORS.

(** ** Looking at a sequence of signals *)

Definition is_slider_signal (e : StewartPlatform.signal) : bool :=
  match e with
  | StewartPlatform.slider_valueChanged _ _ => true
  | _ => false
  end.

Definition is_send_signal (e : StewartPlatform.signal) : bool :=
  match e with
  | StewartPlatform.button_send_clicked => true
  | StewartPlatform.LeapFrameUpdate _ => true
  | _ => false
  end.

(** The argument of the last [LeapConnected] signal of a sequence. *)
Fixpoint last_LeapConnected (es : list StewartPlatform.signal) : option bool :=
  match es with
  | [] => None
  | e :: r =>
      match last_LeapConnected r with
      | Some c => Some c
      | None =>
          match e with
          | StewartPlatform.LeapConnected _ c => Some c
          | _ => None
          end
      end
  end.

(** The argument of the last toggle of the Leap box in a sequence. *)
Fixpoint last_toggled (es : list StewartPlatform.signal) : option bool :=
  match es with
  | [] => None
  | e :: r =>
      match last_toggled r with
      | Some c => Some c
      | None =>
          match e with
          | StewartPlatform.enable_leap_motion_toggled c => Some c
          | _ => None
          end
      end
  end.

(** The serial status label names the open port, and reads
    "Disconnected" while the port is closed. *)
Definition label_follows_connection (w : StewartPlatform.t) : Prop :=
  Ui.label_serial_val (StewartPlatform.ui w)
  = if QSerialPort.isOpen (StewartPlatform.m_serial w)
    then QSerialPort.portName (StewartPlatform.m_serial w)
    else "Disconnected"%string.

(** ** The manual controls

    Six spin boxes and six sliders, paired by index in the constructor's
    loop.  What is kept of a widget is its range and its value.  A setter
    reports the value it emits with [valueChanged], if it emits. *)
Module QSlider.

Record t : Type := mk { minimum : Z; maximum : Z; value : Z }.

Definition bound (s : t) (v : Z) : Z := Z.max (minimum s) (Z.min (maximum s) v).

(** [setValue]: the value is brought into the range; an unchanged value
    emits nothing. *)
Definition setValue (v : Z) (s : t) : t * option Z :=
  let x := bound s v in
  if value s =? x then (s, None) else (mk (minimum s) (maximum s) x, Some x).

(** [setRange]: the maximum is raised to the minimum if it lies below,
    and on a changed range the value is set again. *)
Definition setRange (mn mx : Z) (s : t) : t * option Z :=
  let s' := mk mn (Z.max mn mx) (value s) in
  if (minimum s =? minimum s') && (maximum s =? maximum s') then (s', None)
  else setValue (value s') s'.

Definition setMinimum (mn : Z) (s : t) : t * option Z :=
  setRange mn (Z.max (maximum s) mn) s.

Definition setMaximum (mx : Z) (s : t) : t * option Z :=
  setRange (Z.min (minimum s) mx) mx s.

(** A slider as the toolkit keeps it. *)
Definition valid (s : t) : Prop := minimum s <= value s <= maximum s.

End QSlider.

Module QSpinBox.

Record t : Type := mk { minimum : Z; maximum : Z; value : Z }.

Definition bound (f : t) (v : Z) : Z :=
  let v1 := if v <? minimum f then minimum f else v in
  if v1 >? maximum f then maximum f else v1.

Definition setValue (v : Z) (f : t) : t * option Z :=
  let x := bound f v in
  if value f =? x then (f, None) else (mk (minimum f) (maximum f) x, Some x).

Definition setRange (mn mx : Z) (f : t) : t * option Z :=
  let f' := mk mn (if mn <? mx then mx else mn) (value f) in
  if bound f' (value f') =? value f' then (f', None)
  else setValue (bound f' (value f')) f'.

Definition setMinimum (mn : Z) (f : t) : t * option Z :=
  setRange mn (if maximum f >? mn then maximum f else mn) f.

Definition setMaximum (mx : Z) (f : t) : t * option Z :=
  setRange (if minimum f <? mx then minimum f else mx) mx f.

Definition valid (f : t) : Prop := minimum f <= value f <= maximum f.

End QSpinBox.

Module Manual.

(** [manual_fields] and [manual_sliders]. *)
Record Panel : Type := mk {
  manual_fields : list QSpinBox.t;
  manual_sliders : list QSlider.t
}.

Fixpoint replace_nth {A : Type} (i : nat) (x : A) (l : list A) : list A :=
  match l, i with
  | [], _ => []
  | _ :: r, O => x :: r
  | y :: r, S i' => y :: replace_nth i' x r
  end.

Definition set_field (i : nat) (f : QSpinBox.t) (p : Panel) : Panel :=
  mk (replace_nth i f (manual_fields p)) (manual_sliders p).

Definition set_slider (i : nat) (s : QSlider.t) (p : Panel) : Panel :=
  mk (manual_fields p) (replace_nth i s (manual_sliders p)).

(** The range part of the constructor's loop, with [k] iterations left
    from index [i]; [lo] and [hi] are the header's [MIN_ACTUATOR_VALUE] and
    [MAX_ACTUATOR_VALUE].  The pair's signals are connected after its
    range is set, so what the setters emit here reaches no slot. *)
Fixpoint constructor_loop (k i : nat) (lo hi : Z) (p : Panel) : outcome Panel :=
  match k with
  | O => Returns p
  | S k' =>
      match nth_error (manual_fields p) i, nth_error (manual_sliders p) i with
      | Some field, Some slider =>
          let field := fst (QSpinBox.setMinimum lo field) in
          let field := fst (QSpinBox.setMaximum hi field) in
          let slider := fst (QSlider.setMinimum lo slider) in
          let slider := fst (QSlider.setMaximum hi slider) in
          constructor_loop k' (S i) lo hi (set_slider i slider (set_field i field p))
      | _, _ => AssertionFailure (index_in_range i)
      end
  end.

(** How a change of value ends: every slot has run, a slot failed an
    assertion, or the signals were still going when the fuel ran out. *)
Inductive emission (A : Type) : Type :=
| Settled (a : A)
| Aborted (what : assertion)
| Unfinished.

Arguments Settled {A} a.
Arguments Aborted {A} what.
Arguments Unfinished {A}.

(** The three connections of a pair, lines 31, 32 and 35: the field's
    [valueChanged] runs the slider's [setValue]; the slider's
    [valueChanged] runs the field's [setValue] and then the lambda that
    writes [actuator_positions[i]].  Slots run in the order of their
    connection, each to its end before the next. *)
Fixpoint slider_setValue (fuel i : nat) (v : Z) (s : Panel * StewartPlatform.t)
  : emission (Panel * StewartPlatform.t) :=
  match fuel with
  | O => Unfinished
  | S fuel' =>
      match nth_error (manual_sliders (fst s)) i with
      | None => Settled s
      | Some slider =>
          match QSlider.setValue v slider with
          | (_, None) => Settled s
          | (slider', Some x) =>
              match field_setValue fuel' i x (set_slider i slider' (fst s), snd s) with
              | Settled (p, w) =>
                  match StewartPlatform.deliver
                          (StewartPlatform.slider_valueChanged i x) w with
                  | Returns w' => Settled (p, w')
                  | AssertionFailure a => Aborted a
                  end
              | Aborted a => Aborted a
              | Unfinished => Unfinished
              end
          end
      end
  end
with field_setValue (fuel i : nat) (v : Z) (s : Panel * StewartPlatform.t)
  : emission (Panel * StewartPlatform.t) :=
  match fuel with
  | O => Unfinished
  | S fuel' =>
      match nth_error (manual_fields (fst s)) i with
      | None => Settled s
      | Some field =>
          match QSpinBox.setValue v field with
          | (_, None) => Settled s
          | (field', Some x) =>
              slider_setValue fuel' i x (set_field i field' (fst s), snd s)
          end
      end
  end.

(** Pair [i] has one range, not empty, and both values inside it. *)
Definition paired (i : nat) (lo hi : Z) (p : Panel) : Prop :=
  exists field slider,
    nth_error (manual_fields p) i = Some field
    /\ nth_error (manual_sliders p) i = Some slider
    /\ QSpinBox.minimum field = lo /\ QSpinBox.maximum field = hi
    /\ QSlider.minimum slider = lo /\ QSlider.maximum slider = hi
    /\ lo <= hi
    /\ lo <= QSpinBox.value field <= hi
    /\ lo <= QSlider.value slider <= hi.

(** Field, slider and position [i] hold the same value. *)
Definition in_step (i : nat) (s : Panel * StewartPlatform.t) : Prop :=
  exists x field slider,
    nth_error (manual_fields (fst s)) i = Some field
    /\ nth_error (manual_sliders (fst s)) i = Some slider
    /\ nth_error (StewartPlatform.actuator_positions (snd s)) i = Some x
    /\ QSpinBox.value field = x
    /\ QSlider.value slider = x.

Definition clamp (lo hi v : Z) : Z := Z.max lo (Z.min hi v).

(** Six widgets of each kind as the form designer makes them: range 0 to
    99, value 0. *)
Definition form_panel : Panel :=
  mk (repeat (QSpinBox.mk 0 99 0) 6) (repeat (QSlider.mk 0 99 0) 6).

End Manual.

(** ** Teardown

    The destructor runs [delete ui; delete m_settings; closeSerialPort();
    delete m_serial; delete leap], in this order: [closeSerialPort] is
    called when the form object [ui] is already deleted.  On a closed port
    the slot reads [m_serial] and returns.  On an open port it closes the
    port and goes on to [ui->log], [ui->label_serial_val] and
    [ui->button_send]. *)
Inductive teardown : Type :=
| Destroyed (port : QSerialPort.t)     (* no deleted object was used; the
                                          port as [delete m_serial] finds it *)
| DeletedUiUsed (port : QSerialPort.t) (* [closeSerialPort] reached for the
                                          deleted [ui]; the port at that point *).

Definition destructor (w : StewartPlatform.t) : teardown :=
  if QSerialPort.isOpen (StewartPlatform.m_serial w)
  then DeletedUiUsed (QSerialPort.close (StewartPlatform.m_serial w))
  else Destroyed (StewartPlatform.m_serial w).

Definition teardown_port (t : teardown) : QSerialPort.t :=
  match t with
  | Destroyed port => port
  | DeletedUiUsed port => port
  end.

(** * Properties *)

(** ** Text *)
Section Text.

Lemma append_nil_r (s : string) : s ++ "" = s.
Proof. induction s as [|c r IH]; simpl; [reflexivity | now rewrite IH]. Qed.

Lemma append_assoc (s u v : string) : (s ++ u) ++ v = s ++ (u ++ v).
Proof. induction s as [|c r IH]; simpl; [reflexivity | now rewrite IH]. Qed.

Lemma all_chars_app (p : ascii -> bool) (s u : string) :
  all_chars p (s ++ u) = all_chars p s && all_chars p u.
Proof.
  induction s as [|c r IH]; simpl; [reflexivity |].
  now rewrite IH, andb_assoc.
Qed.

Lemma all_chars_weaken (p q : ascii -> bool) (s : string) :
  (forall c, p c = true -> q c = true) ->
  all_chars p s = true -> all_chars q s = true.
Proof.
  intros Hpq. induction s as [|c r IH]; simpl; [reflexivity |].
  intros H. apply andb_true_iff in H as [Hc Hr].
  apply andb_true_iff. split; auto.
Qed.

Lemma count_char_app (c : ascii) (s u : string) :
  count_char c (s ++ u) = (count_char c s + count_char c u)%nat.
Proof. induction s as [|d r IH]; simpl; [reflexivity | rewrite IH; lia]. Qed.

Lemma count_char_absent (c : ascii) (s : string) :
  all_chars (fun d => negb (Ascii.eqb c d)) s = true -> count_char c s = 0%nat.
Proof.
  induction s as [|d r IH]; simpl; [reflexivity |].
  intros H. apply andb_true_iff in H as [Hd Hr].
  destruct (Ascii.eqb c d); [discriminate | now rewrite IH].
Qed.

Lemma last_char_app (s u : string) :
  u <> "" -> last_char (s ++ u) = last_char u.
Proof.
  intros Hu. induction s as [|c r IH]; simpl; [reflexivity |].
  rewrite IH. destruct r; simpl; [| reflexivity].
  destruct u; [contradiction | reflexivity].
Qed.

Lemma last_char_all (p : ascii -> bool) (s : string) :
  s <> "" -> all_chars p s = true ->
  exists c, last_char s = Some c /\ p c = true.
Proof.
  induction s as [|c r IH]; [contradiction |].
  intros _ H. simpl in H. apply andb_true_iff in H as [Hc Hr].
  destruct r as [|d r'].
  - exists c. now split.
  - destruct IH as [e [He Hpe]]; [discriminate | assumption |].
    exists e. split; [exact He | exact Hpe].
Qed.

(** A run without spaces extends the field being read. *)
Lemma fields_from_run (s cur rest : string) :
  all_chars (fun d => negb (Ascii.eqb d " ")) s = true ->
  fields_from cur (s ++ rest) = fields_from (cur ++ s) rest.
Proof.
  revert cur. induction s as [|c r IH]; intros cur H; simpl.
  - now rewrite append_nil_r.
  - simpl in H. apply andb_true_iff in H as [Hc Hr].
    destruct (Ascii.eqb c " "); [discriminate |].
    rewrite IH by assumption. now rewrite append_assoc.
Qed.

Lemma fields_from_field (s cur rest : string) :
  all_chars (fun d => negb (Ascii.eqb d " ")) s = true ->
  fields_from cur (s ++ " " ++ rest) = (cur ++ s) :: fields_from "" rest.
Proof. intros H. now rewrite fields_from_run. Qed.

Lemma fields_from_last (s cur : string) :
  all_chars (fun d => negb (Ascii.eqb d " ")) s = true ->
  fields_from cur s = [cur ++ s].
Proof.
  intros H. rewrite <- (append_nil_r s) at 1. now rewrite fields_from_run.
Qed.

End Text.

(** ** Decimal text of an integer *)
Section Number.

Lemma string_of_uint_digits (d : Decimal.uint) :
  all_chars is_digit (NilEmpty.string_of_uint d) = true.
Proof. induction d; simpl; auto. Qed.

Lemma string_of_uint_nonempty (d : Decimal.uint) :
  d <> Decimal.Nil -> NilEmpty.string_of_uint d <> "".
Proof. destruct d; simpl; intros H; try discriminate. now elim H. Qed.

Lemma number_nonneg_digits (d : Decimal.uint) :
  all_chars is_digit (NilZero.string_of_uint d) = true
  /\ NilZero.string_of_uint d <> "".
Proof.
  destruct d; simpl; try (split; [first [reflexivity | apply string_of_uint_digits]
                                 | discriminate]).
Qed.

(** [number] prints decimal text. *)
Lemma number_is_decimal (n : Z) : is_decimal (QString.number n) = true.
Proof.
  unfold QString.number.
  destruct n as [|p|p]; simpl; [reflexivity | |].
  - destruct (number_nonneg_digits (Pos.to_uint p)) as [Hd Hn].
    unfold is_decimal.
    destruct (NilZero.string_of_uint (Pos.to_uint p)) as [|c r] eqn:E;
      [now elim Hn |].
    simpl in Hd. apply andb_true_iff in Hd as [Hc Hr].
    destruct (Ascii.eqb_spec c "-") as [->|_]; [discriminate Hc |].
    simpl. now rewrite Hc, Hr.
  - destruct (number_nonneg_digits (Pos.to_uint p)) as [Hd Hn].
    rewrite Hd, andb_true_r.
    destruct (NilZero.string_of_uint (Pos.to_uint p)); [now elim Hn | reflexivity].
Qed.

Lemma decimal_chars (s : string) :
  is_decimal s = true ->
  all_chars (fun c => is_digit c || Ascii.eqb c "-") s = true.
Proof.
  destruct s as [|c r]; [discriminate |].
  unfold is_decimal. destruct (Ascii.eqb_spec c "-") as [->|_].
  - intros H. apply andb_true_iff in H as [_ Hr]. simpl.
    apply all_chars_weaken with (p := is_digit); [| assumption].
    intros d ->. reflexivity.
  - apply all_chars_weaken. intros d ->. reflexivity.
Qed.

Lemma decimal_last_digit (s : string) :
  is_decimal s = true ->
  exists d, last_char s = Some d /\ is_digit d = true.
Proof.
  destruct s as [|c r]; [discriminate |].
  unfold is_decimal. destruct (Ascii.eqb_spec c "-") as [->|_].
  - intros H. apply andb_true_iff in H as [Hn Hr].
    destruct r as [|e r']; [discriminate Hn |].
    change (String "-" (String e r')) with ("-" ++ String e r').
    rewrite last_char_app by discriminate.
    apply last_char_all; [discriminate | assumption].
  - apply last_char_all. discriminate.
Qed.

(** The characters of a number are neither a given separator. *)
Lemma number_without (sep : ascii) (n : Z) :
  is_digit sep || Ascii.eqb sep "-" = false ->
  all_chars (fun d => negb (Ascii.eqb d sep)) (QString.number n) = true.
Proof.
  intros Hsep.
  apply all_chars_weaken with (p := fun c => is_digit c || Ascii.eqb c "-").
  - intros c Hc. destruct (Ascii.eqb_spec c sep) as [->|_]; [congruence | reflexivity].
  - apply decimal_chars, number_is_decimal.
Qed.

Lemma number_without_sym (sep : ascii) (n : Z) :
  is_digit sep || Ascii.eqb sep "-" = false ->
  all_chars (fun d => negb (Ascii.eqb sep d)) (QString.number n) = true.
Proof.
  intros Hsep.
  apply all_chars_weaken with (p := fun d => negb (Ascii.eqb d sep)).
  - intros c. now rewrite Ascii.eqb_sym.
  - now apply number_without.
Qed.

(** Reading the text back gives the value. *)
Lemma toInt_number (n : Z) : QString.toInt (QString.number n) = Some n.
Proof.
  unfold QString.toInt, QString.number.
  rewrite NilZero.isi.
  - simpl. now rewrite DecimalZ.of_to.
  - destruct n; simpl; try discriminate.
    intros [= H]. now apply (Unsigned.to_uint_nonnil p).
  - destruct n; simpl; try discriminate.
    intros [= H]. now apply (Unsigned.to_uint_nonnil p).
Qed.

End Number.

(** ** The command line *)
Section CommandLine.

Import StewartPlatform.

Lemma space_is_no_number_char : is_digit " " || Ascii.eqb " " "-" = false.
Proof. reflexivity. Qed.

Lemma LF_is_no_number_char : is_digit LF || Ascii.eqb LF "-" = false.
Proof. reflexivity. Qed.

Lemma count_in_number (sep : ascii) (n : Z) :
  is_digit sep || Ascii.eqb sep "-" = false ->
  count_char sep (QString.number n) = 0%nat.
Proof. intros H. now apply count_char_absent, number_without_sym. Qed.

(** A vector shorter than [NUM_ACTUATORS] stops the loop at its end. *)
Lemma loop_needs_elements (k i : nat) (v : list Z) (s : string) :
  (i <= List.length v < i + k)%nat ->
  sendActuatorPositions_loop k i v s
  = AssertionFailure (index_in_range (List.length v)).
Proof.
  revert i s. induction k as [|k IH]; intros i s H; [lia |].
  simpl. destruct (nth_error v i) as [x|] eqn:E.
  - apply IH. assert (i < List.length v)%nat
      by (apply nth_error_Some; congruence). lia.
  - apply nth_error_None in E. f_equal. f_equal. lia.
Qed.

(** With enough elements the loop returns. *)
Lemma loop_returns (k i : nat) (v : list Z) (s : string) :
  (i + k <= List.length v)%nat ->
  exists line, sendActuatorPositions_loop k i v s = Returns line.
Proof.
  revert i s. induction k as [|k IH]; intros i s H; simpl.
  - now exists s.
  - destruct (nth_error v i) as [x|] eqn:E.
    + apply IH. lia.
    + apply nth_error_None in E. lia.
Qed.

(** The loop on six values builds the line of the wire format. *)
Lemma command_line_wire_format (v1 v2 v3 v4 v5 v6 : Z) :
  command_line [v1; v2; v3; v4; v5; v6] = Returns (wire_format v1 v2 v3 v4 v5 v6).
Proof.
  unfold command_line, wire_format. simpl. f_equal.
  rewrite !append_assoc. reflexivity.
Qed.

Lemma wire_format_nonempty (v1 v2 v3 v4 v5 v6 : Z) :
  wire_format v1 v2 v3 v4 v5 v6 <> ""%string.
Proof.
  intros E. apply (f_equal (count_char LF)) in E.
  unfold wire_format in E. rewrite !count_char_app in E. simpl in E. lia.
Qed.

End CommandLine.

(** C1.  For any six integers the line built for transmission is their
    decimal texts in order, joined by single spaces and ended by one line
    feed: cutting the text before the line feed at its spaces gives back
    exactly six fields, each decimal text that reads back as the value it
    stands for; the whole line holds five spaces and one line feed; the
    character before the line feed is a digit, never a space.  For
    1,2,3,4,5,6 the line is "1 2 3 4 5 6" followed by the line feed. *)
Theorem command_line_format (v1 v2 v3 v4 v5 v6 : Z) :
  let n := QString.number in
  let body :=
    (n v1 ++ " " ++ n v2 ++ " " ++ n v3 ++ " " ++ n v4 ++ " " ++ n v5 ++ " " ++ n v6)%string in
  StewartPlatform.command_line [v1; v2; v3; v4; v5; v6] = Returns (body ++ newline)%string
  /\ fields body = [n v1; n v2; n v3; n v4; n v5; n v6]
  /\ forallb is_decimal (fields body) = true
  /\ map QString.toInt (fields body)
     = [Some v1; Some v2; Some v3; Some v4; Some v5; Some v6]
  /\ count_char " " (body ++ newline) = 5%nat
  /\ count_char LF (body ++ newline) = 1%nat
  /\ (exists d, last_char body = Some d /\ is_digit d = true)
  /\ StewartPlatform.command_line [1; 2; 3; 4; 5; 6]
     = Returns ("1 2 3 4 5 6" ++ newline)%string.
Proof.
  intros n body.
  assert (Hfields : fields body = [n v1; n v2; n v3; n v4; n v5; n v6]).
  { unfold fields, body.
    rewrite !fields_from_field by (apply number_without, space_is_no_number_char).
    rewrite fields_from_last by (apply number_without, space_is_no_number_char).
    reflexivity. }
  split; [| split; [exact Hfields | rewrite Hfields; repeat split]].
  - rewrite command_line_wire_format. f_equal.
    unfold wire_format, body, n. now rewrite !append_assoc.
  - simpl. unfold n. now rewrite !number_is_decimal.
  - simpl. unfold n. now rewrite !toInt_number.
  - unfold body. rewrite !count_char_app.
    unfold n. rewrite !count_in_number by reflexivity. reflexivity.
  - unfold body. rewrite !count_char_app.
    unfold n. rewrite !count_in_number by reflexivity. reflexivity.
  - unfold body.
    assert (Hne : n v6 <> ""%string).
    { intros E. pose proof (number_is_decimal v6) as H. fold n in H.
      rewrite E in H. discriminate. }
    rewrite <- !append_assoc. rewrite last_char_app by exact Hne.
    apply decimal_last_digit, number_is_decimal.
Qed.

(** ** Place markers *)
Section Arg.

Import QString.

Lemma pieces_text (c : ascii) (r : string) :
  Ascii.eqb c "%" = false -> pieces (String c r) = Text c :: pieces r.
Proof. intros H. simpl. now rewrite H. Qed.

Lemma min_escape_plain (u v : string) :
  no_percent u = true -> min_escape (pieces (u ++ v)) = min_escape (pieces v).
Proof.
  induction u as [|c r IH]; intros H; [reflexivity |].
  simpl in H. apply andb_true_iff in H as [Hc Hr].
  apply negb_true_iff in Hc.
  change (String c r ++ v)%string with (String c (r ++ v)).
  rewrite pieces_text by assumption. simpl. now apply IH.
Qed.

Lemma replace_plain (m : nat) (a u v : string) :
  no_percent u = true ->
  replace m a (pieces (u ++ v)) = (u ++ replace m a (pieces v))%string.
Proof.
  induction u as [|c r IH]; intros H; [reflexivity |].
  simpl in H. apply andb_true_iff in H as [Hc Hr].
  apply negb_true_iff in Hc.
  change (String c r ++ v)%string with (String c (r ++ v)).
  rewrite pieces_text by assumption. simpl. now rewrite IH.
Qed.

(** Text before the first percent sign is copied. *)
Lemma arg_plain_prefix (u v a : string) :
  no_percent u = true -> arg (u ++ v) a = (u ++ arg v a)%string.
Proof.
  intros H. unfold arg. rewrite min_escape_plain by assumption.
  destruct (min_escape (pieces v)); [now apply replace_plain | reflexivity].
Qed.

(** The template that is one marker is replaced by the argument,
    whatever the argument holds. *)
Lemma arg_whole (a : string) : arg "%1" a = a.
Proof. unfold arg. simpl. apply append_nil_r. Qed.

(** A template that ends in its only marker. *)
Lemma arg_last (u a : string) :
  no_percent u = true -> arg (u ++ "%1") a = (u ++ a)%string.
Proof. intros H. now rewrite arg_plain_prefix, arg_whole. Qed.

(** One step of a chain: the text so far is plain, and the rest of the
    template [w] has [a] put at its lowest marker. *)
Lemma arg_step (u w a l r : string) :
  no_percent u = true ->
  arg w a = (l ++ a ++ r)%string ->
  arg (u ++ w) a = ((u ++ l ++ a) ++ r)%string.
Proof.
  intros Hu Hw. rewrite arg_plain_prefix by assumption.
  now rewrite Hw, !append_assoc.
Qed.

Lemma no_percent_app (u v : string) :
  no_percent (u ++ v) = no_percent u && no_percent v.
Proof. apply all_chars_app. Qed.

End Arg.

(** ** Log messages *)
Section Messages.

Import SerialSettingsDialog StewartPlatform.

Lemma disconnected_message (n : string) :
  QString.arg (tr "<COM>  Disconnected from %1") n
  = ("<COM>  Disconnected from " ++ n)%string.
Proof. apply (arg_last "<COM>  Disconnected from "). reflexivity. Qed.

Lemma connection_error_message (e : string) :
  QString.arg (tr "<COM>  Connection error: %1") e
  = ("<COM>  Connection error: " ++ e)%string.
Proof. apply (arg_last "<COM>  Connection error: "). reflexivity. Qed.

(** The text built so far holds no percent sign. *)
Ltac filled :=
  rewrite !no_percent_app; simpl;
  repeat match goal with
         | H : no_percent _ = true |- _ => rewrite H; clear H
         end;
  reflexivity.

(** With plain settings strings the six markers are filled in order. *)
Lemma connected_message_plain (p : Settings) :
  plain p = true ->
  connected_message p
  = ("<COM>  Connected to " ++ name p ++ " : " ++ stringBaudRate p ++ ", "
       ++ stringDataBits p ++ ", " ++ stringParity p ++ ", "
       ++ stringStopBits p ++ ", " ++ stringFlowControl p)%string.
Proof.
  unfold plain. intros H.
  apply andb_true_iff in H as [H Hstop].
  apply andb_true_iff in H as [H Hpar].
  apply andb_true_iff in H as [H Hdata].
  apply andb_true_iff in H as [Hname Hbaud].
  unfold connected_message, tr.
  assert (E : QString.arg "<COM>  Connected to %1 : %2, %3, %4, %5, %6" (name p)
              = (("<COM>  Connected to " ++ name p) ++ " : %2, %3, %4, %5, %6")%string)
    by (apply (arg_step "" _ _ "<COM>  Connected to "); reflexivity).
  rewrite E; clear E.
  rewrite (arg_step _ " : %2, %3, %4, %5, %6" (stringBaudRate p) " : " ", %3, %4, %5, %6");
    [| filled | reflexivity].
  rewrite (arg_step _ ", %3, %4, %5, %6" (stringDataBits p) ", " ", %4, %5, %6");
    [| filled | reflexivity].
  rewrite (arg_step _ ", %4, %5, %6" (stringParity p) ", " ", %5, %6");
    [| filled | reflexivity].
  rewrite (arg_step _ ", %5, %6" (stringStopBits p) ", " ", %6");
    [| filled | reflexivity].
  rewrite (arg_step _ ", %6" (stringFlowControl p) ", " "");
    [| filled | reflexivity].
  rewrite !append_assoc. simpl. now rewrite append_nil_r.
Qed.

End Messages.

(** ** What every reachable state satisfies *)
Section Invariants.

Import StewartPlatform.

Lemma closeSerialPort_closed (now : string) (w : t) :
  QSerialPort.isOpen (m_serial (closeSerialPort now w)) = false.
Proof.
  unfold closeSerialPort.
  destruct (QSerialPort.isOpen (m_serial w)) eqn:E; [reflexivity | exact E].
Qed.

Lemma closeSerialPort_not_open (now : string) (w : t) :
  QSerialPort.isOpen (m_serial w) = false -> closeSerialPort now w = w.
Proof. unfold closeSerialPort. now intros ->. Qed.

Lemma closeSerialPort_twice (now now' : string) (w : t) :
  closeSerialPort now' (closeSerialPort now w) = closeSerialPort now w.
Proof. apply closeSerialPort_not_open, closeSerialPort_closed. Qed.

Lemma closeSerialPort_send (now : string) (w : t) :
  send_follows_connection w -> send_follows_connection (closeSerialPort now w).
Proof.
  unfold send_follows_connection, closeSerialPort.
  destruct (QSerialPort.isOpen (m_serial w)) eqn:E; [reflexivity | now rewrite E].
Qed.

Lemma openSerialPort_send
      (now1 now2 : string) (os : QSerialPort.open_attempt) (w : t) :
  send_follows_connection w ->
  send_follows_connection (openSerialPort now1 now2 os w).
Proof.
  intros H. apply (closeSerialPort_send now1) in H.
  pose proof (closeSerialPort_closed now1 w) as Hc.
  unfold openSerialPort. set (c := closeSerialPort now1 w) in *.
  unfold send_follows_connection in *.
  unfold QSerialPort.open. simpl. rewrite Hc.
  destruct os; simpl; [reflexivity | now rewrite H, Hc].
Qed.

Lemma writeSerialData_send (data : string) (w w' : t) :
  send_follows_connection w -> writeSerialData data w = Returns w' ->
  send_follows_connection w'.
Proof.
  unfold writeSerialData, Q_ASSERT, send_follows_connection.
  destruct (QSerialPort.isOpen (m_serial w)) eqn:E; simpl; [| discriminate].
  intros H [= <-]. simpl. unfold QSerialPort.write. rewrite E. simpl.
  now rewrite H.
Qed.

Lemma sendActuatorPositions_send (v : list Z) (w w' : t) :
  send_follows_connection w -> sendActuatorPositions v w = Returns w' ->
  send_follows_connection w'.
Proof.
  unfold sendActuatorPositions. destruct (command_line v); simpl; [| discriminate].
  apply writeSerialData_send.
Qed.

Lemma deliver_send (e : signal) (w w' : t) :
  send_follows_connection w -> deliver e w = Returns w' ->
  send_follows_connection w'.
Proof.
  intros H. destruct e; simpl.
  - destruct (i <? NUM_ACTUATORS)%nat; intros [= <-]; exact H.
  - intros [= <-]. unfold onLeapConnected. destruct connected; exact H.
  - unfold readSerialData, Q_ASSERT.
    destruct (QSerialPort.isOpen (m_serial w)); simpl; [| discriminate].
    intros [= <-]. exact H.
  - intros [= <-]. now apply openSerialPort_send.
  - intros [= <-]. now apply closeSerialPort_send.
  - destruct (Ui.button_send (ui w)).
    + now apply sendActuatorPositions_send.
    + intros [= <-]. exact H.
  - intros [= <-]. exact H.
  - now apply sendActuatorPositions_send.
Qed.

Lemma leap_frame_send (v : list Z) (w w' : t) :
  send_follows_connection w -> leap_frame v w = Returns w' ->
  send_follows_connection w'.
Proof.
  intros H. unfold leap_frame.
  destruct (LeapEventListener.onFrame v (leap w)).
  - now apply deliver_send.
  - intros [= <-]. exact H.
Qed.

(** In every reachable state the send button is enabled exactly when
    the port is open. *)
Lemma reachable_send_follows_connection (w : t) :
  reachable w -> send_follows_connection w.
Proof.
  induction 1 as [ui0 dialog listener | e w w' _ IH Hd | v w w' _ IH Hf].
  - reflexivity.
  - exact (deliver_send e w w' IH Hd).
  - exact (leap_frame_send v w w' IH Hf).
Qed.

Lemma assign_length (i : nat) (j : Z) (v : list Z) :
  List.length (assign i j v) = List.length v.
Proof.
  revert i. induction v as [|x r IH]; intros [|i]; simpl; auto.
Qed.

Lemma writeSerialData_positions (data : string) (w w' : t) :
  writeSerialData data w = Returns w' ->
  actuator_positions w' = actuator_positions w.
Proof.
  unfold writeSerialData, Q_ASSERT.
  destruct (QSerialPort.isOpen (m_serial w)); simpl; [| discriminate].
  now intros [= <-].
Qed.

Lemma sendActuatorPositions_positions (v : list Z) (w w' : t) :
  sendActuatorPositions v w = Returns w' ->
  actuator_positions w' = actuator_positions w.
Proof.
  unfold sendActuatorPositions. destruct (command_line v); simpl; [| discriminate].
  apply writeSerialData_positions.
Qed.

Lemma closeSerialPort_positions (now : string) (w : t) :
  actuator_positions (closeSerialPort now w) = actuator_positions w.
Proof.
  unfold closeSerialPort. now destruct (QSerialPort.isOpen (m_serial w)).
Qed.

Lemma openSerialPort_positions
      (now1 now2 : string) (os : QSerialPort.open_attempt) (w : t) :
  actuator_positions (openSerialPort now1 now2 os w) = actuator_positions w.
Proof.
  unfold openSerialPort.
  destruct (QSerialPort.open os _) as [[|] port]; simpl;
    apply closeSerialPort_positions.
Qed.

(** The vector of positions keeps its six elements. *)
Lemma reachable_six_positions (w : t) :
  reachable w -> List.length (actuator_positions w) = NUM_ACTUATORS.
Proof.
  induction 1 as [ui0 dialog listener | e w w' _ IH Hd | v w w' _ IH Hf].
  - reflexivity.
  - destruct e; simpl in Hd.
    + destruct (i <? NUM_ACTUATORS)%nat; injection Hd as <-; simpl;
        [now rewrite assign_length | exact IH].
    + injection Hd as <-. unfold onLeapConnected. now destruct connected.
    + unfold readSerialData, Q_ASSERT in Hd.
      destruct (QSerialPort.isOpen (m_serial w)); simpl in Hd; [| discriminate].
      now injection Hd as <-.
    + injection Hd as <-. now rewrite openSerialPort_positions.
    + injection Hd as <-. now rewrite closeSerialPort_positions.
    + destruct (Ui.button_send (ui w)).
      * now rewrite (sendActuatorPositions_positions _ _ _ Hd).
      * now injection Hd as <-.
    + now injection Hd as <-.
    + now rewrite (sendActuatorPositions_positions _ _ _ Hd).
  - unfold leap_frame in Hf. destruct (LeapEventListener.onFrame v (leap w)).
    + simpl in Hf. now rewrite (sendActuatorPositions_positions _ _ _ Hf).
    + now injection Hf as <-.
Qed.

(** The send button never fails an assertion in a reachable state: it is
    enabled only while the port is open, and the vector has its six
    elements. *)
Lemma manual_send_returns (w : t) :
  reachable w -> exists w', deliver button_send_clicked w = Returns w'.
Proof.
  intros R. pose proof (reachable_send_follows_connection w R) as Hs.
  pose proof (reachable_six_positions w R) as H6.
  simpl. destruct (Ui.button_send (ui w)) eqn:E; [| now exists w].
  unfold sendActuatorPositions, command_line.
  destruct (loop_returns NUM_ACTUATORS 0 (actuator_positions w) "") as [line ->];
    [rewrite H6; simpl; lia |].
  simpl. unfold writeSerialData, Q_ASSERT.
  unfold send_follows_connection in Hs. rewrite <- Hs, E. simpl. eauto.
Qed.

End Invariants.

(** ** The serial connection *)
Section Connection.

Import SerialSettingsDialog StewartPlatform.

(** The paragraph [closeSerialPort] adds to the log. *)
Lemma closeSerialPort_log (now : string) (w : t) :
  Ui.log (ui (closeSerialPort now w))
  = (Ui.log (ui w)
       ++ (if QSerialPort.isOpen (m_serial w)
           then [("(" ++ now ++ ") " ++ "<COM>  Disconnected from "
                      ++ QSerialPort.portName (m_serial w))%string]
           else []))%list.
Proof.
  unfold closeSerialPort.
  destruct (QSerialPort.isOpen (m_serial w)); simpl.
  - now rewrite disconnected_message.
  - now rewrite List.app_nil_r.
Qed.

Lemma closeSerialPort_rest (now : string) (w : t) :
  let w' := closeSerialPort now w in
  m_serial w' = QSerialPort.close (m_serial w)
  /\ m_settings w' = m_settings w
  /\ leap w' = leap w
  /\ Ui.label_leap_val (ui w') = Ui.label_leap_val (ui w)
  /\ Ui.actuatorBox (ui w') = Ui.actuatorBox (ui w).
Proof.
  unfold closeSerialPort.
  destruct (QSerialPort.isOpen (m_serial w)) eqn:E; simpl; repeat split.
  destruct (m_serial w); simpl in *. now subst.
Qed.

End Connection.

(** C5.  [closeSerialPort] on a port that is not open changes nothing: the
    state, log included, is the one it was given.  On an open port it
    closes the handle, appends to the log one paragraph "Disconnected from"
    with the port's name, sets the serial status label to "Disconnected"
    and disables the send button; the port's settings, what was written to
    it, and everything outside the serial widgets stay as they were. *)
Theorem closeSerialPort_effect (now : string) (w : StewartPlatform.t) :
  let w' := StewartPlatform.closeSerialPort now w in
  (QSerialPort.isOpen (StewartPlatform.m_serial w) = false -> w' = w)
  /\ (QSerialPort.isOpen (StewartPlatform.m_serial w) = true ->
      StewartPlatform.m_serial w' = QSerialPort.close (StewartPlatform.m_serial w)
      /\ QSerialPort.isOpen (StewartPlatform.m_serial w') = false
      /\ Ui.log (StewartPlatform.ui w')
         = (Ui.log (StewartPlatform.ui w)
              ++ [("(" ++ now ++ ") <COM>  Disconnected from "
                       ++ QSerialPort.portName (StewartPlatform.m_serial w))%string])%list
      /\ Ui.label_serial_val (StewartPlatform.ui w') = "Disconnected"%string
      /\ Ui.button_send (StewartPlatform.ui w') = false
      /\ Ui.label_leap_val (StewartPlatform.ui w')
         = Ui.label_leap_val (StewartPlatform.ui w)
      /\ Ui.actuatorBox (StewartPlatform.ui w') = Ui.actuatorBox (StewartPlatform.ui w)
      /\ StewartPlatform.m_settings w' = StewartPlatform.m_settings w
      /\ StewartPlatform.leap w' = StewartPlatform.leap w
      /\ StewartPlatform.actuator_positions w' = StewartPlatform.actuator_positions w).
Proof.
  intros w'. split.
  - apply closeSerialPort_not_open.
  - intros Hopen.
    destruct (closeSerialPort_rest now w) as (Hs & Hd & Hl & Hll & Hbox).
    fold w' in Hs, Hd, Hl, Hll, Hbox.
    repeat split; try assumption.
    + apply closeSerialPort_closed.
    + unfold w'. rewrite closeSerialPort_log, Hopen. reflexivity.
    + unfold w', StewartPlatform.closeSerialPort. now rewrite Hopen.
    + unfold w', StewartPlatform.closeSerialPort. now rewrite Hopen.
    + apply closeSerialPort_positions.
Qed.

Lemma closeSerialPort_effect_witness :
  StewartPlatform.closeSerialPort "10:00:07" session_start = session_start
  /\ Ui.log (StewartPlatform.ui (StewartPlatform.closeSerialPort "10:00:07" session_connected))
     = ["(10:00:00) <COM>  Connected to COM3 : 9600, 8, None, 1, None";
        "(10:00:07) <COM>  Disconnected from COM3"]%string.
Proof.
  split.
  - apply (closeSerialPort_effect "10:00:07" session_start). reflexivity.
  - destruct (closeSerialPort_effect "10:00:07" session_connected) as [_ H].
    destruct (H eq_refl) as (_ & _ & Hlog & _). exact Hlog.
Defined.

Section Opening.

Import SerialSettingsDialog StewartPlatform.

(** The port as [openSerialPort] leaves it when the device opens. *)
Lemma openSerialPort_port_opened (now1 now2 : string) (w : t) :
  let p := settings (m_settings w) in
  m_serial (openSerialPort now1 now2 QSerialPort.Opens w)
  = QSerialPort.mk true (name p) (baudRate p) (dataBits p) (parity p)
                   (stopBits p) (flowControl p) "No error"
                   (QSerialPort.written (m_serial w)).
Proof.
  intros p. pose proof (closeSerialPort_closed now1 w) as Hc.
  destruct (closeSerialPort_rest now1 w) as (Hs & Hd & _).
  unfold openSerialPort. set (c := closeSerialPort now1 w) in *.
  unfold QSerialPort.open. simpl. rewrite Hc. simpl. rewrite Hd, Hs. reflexivity.
Qed.

(** The port as [openSerialPort] leaves it when the device refuses. *)
Lemma openSerialPort_port_refused (now1 now2 e : string) (w : t) :
  let p := settings (m_settings w) in
  m_serial (openSerialPort now1 now2 (QSerialPort.Refused e) w)
  = QSerialPort.mk false (name p) (baudRate p) (dataBits p) (parity p)
                   (stopBits p) (flowControl p) e
                   (QSerialPort.written (m_serial w)).
Proof.
  intros p. pose proof (closeSerialPort_closed now1 w) as Hc.
  destruct (closeSerialPort_rest now1 w) as (Hs & Hd & _).
  unfold openSerialPort. set (c := closeSerialPort now1 w) in *.
  unfold QSerialPort.open. simpl. rewrite Hc. simpl. rewrite Hd, Hs. reflexivity.
Qed.

Lemma openSerialPort_log_opened (now1 now2 : string) (w : t) :
  Ui.log (ui (openSerialPort now1 now2 QSerialPort.Opens w))
  = (Ui.log (ui (closeSerialPort now1 w))
       ++ [("(" ++ now2 ++ ") " ++ connected_message (settings (m_settings w)))%string])%list.
Proof.
  pose proof (closeSerialPort_closed now1 w) as Hc.
  destruct (closeSerialPort_rest now1 w) as (_ & Hd & _).
  unfold openSerialPort. set (c := closeSerialPort now1 w) in *.
  unfold QSerialPort.open. simpl. rewrite Hc. simpl. now rewrite Hd.
Qed.

Lemma openSerialPort_log_refused (now1 now2 e : string) (w : t) :
  Ui.log (ui (openSerialPort now1 now2 (QSerialPort.Refused e) w))
  = (Ui.log (ui (closeSerialPort now1 w))
       ++ [("(" ++ now2 ++ ") <COM>  Connection error: " ++ e)%string])%list.
Proof.
  pose proof (closeSerialPort_closed now1 w) as Hc.
  unfold openSerialPort. set (c := closeSerialPort now1 w) in *.
  unfold QSerialPort.open. simpl. rewrite Hc. simpl.
  now rewrite connection_error_message.
Qed.

(** What [openSerialPort] leaves alone. *)
Lemma openSerialPort_rest
      (now1 now2 : string) (os : QSerialPort.open_attempt) (w : t) :
  let w' := openSerialPort now1 now2 os w in
  m_settings w' = m_settings w
  /\ leap w' = leap w
  /\ actuator_positions w' = actuator_positions w
  /\ Ui.label_leap_val (ui w') = Ui.label_leap_val (ui w)
  /\ Ui.actuatorBox (ui w') = Ui.actuatorBox (ui w).
Proof.
  destruct (closeSerialPort_rest now1 w) as (_ & Hd & Hl & Hll & Hbox).
  pose proof (closeSerialPort_positions now1 w) as Hp.
  unfold openSerialPort. set (c := closeSerialPort now1 w) in *.
  destruct (QSerialPort.open os _) as [[|] port]; simpl; repeat split; assumption.
Qed.

End Opening.

(** C2.  [openSerialPort]: the closing step runs first, so an open port
    is closed and its disconnection logged before anything else.  The port
    is then given the name, baud rate, data bits, parity, stop bits and
    flow control of the settings, whether or not the device opens.  When
    it opens: the port is open, the serial status label shows the port
    name, the send button is enabled, and exactly one paragraph follows in
    the log, the "Connected to" template with the six settings strings
    passed to it in order; for settings strings without percent signs it
    reads "<COM>  Connected to NAME : BAUD, DATA, PARITY, STOP, FLOW".
    Opening again with the same settings leaves the same port, label and
    button, and logs one disconnection and one connection. *)
Theorem openSerialPort_success (now1 now2 : string) (w : StewartPlatform.t) :
  let p := SerialSettingsDialog.settings (StewartPlatform.m_settings w) in
  let port := StewartPlatform.m_serial w in
  let w' := StewartPlatform.openSerialPort now1 now2 QSerialPort.Opens w in
  let port' := StewartPlatform.m_serial w' in
  (QSerialPort.isOpen port' = true
   /\ QSerialPort.portName port' = SerialSettingsDialog.name p
   /\ QSerialPort.baudRate port' = SerialSettingsDialog.baudRate p
   /\ QSerialPort.dataBits port' = SerialSettingsDialog.dataBits p
   /\ QSerialPort.parity port' = SerialSettingsDialog.parity p
   /\ QSerialPort.stopBits port' = SerialSettingsDialog.stopBits p
   /\ QSerialPort.flowControl port' = SerialSettingsDialog.flowControl p
   /\ QSerialPort.written port' = QSerialPort.written port)
  /\ Ui.label_serial_val (StewartPlatform.ui w') = SerialSettingsDialog.name p
  /\ Ui.button_send (StewartPlatform.ui w') = true
  /\ Ui.log (StewartPlatform.ui w')
     = (Ui.log (StewartPlatform.ui w)
          ++ (if QSerialPort.isOpen port
              then [("(" ++ now1 ++ ") <COM>  Disconnected from "
                         ++ QSerialPort.portName port)%string]
              else [])
          ++ [("(" ++ now2 ++ ") " ++ StewartPlatform.connected_message p)%string])%list
  /\ (SerialSettingsDialog.plain p = true ->
      StewartPlatform.connected_message p
      = ("<COM>  Connected to " ++ SerialSettingsDialog.name p
           ++ " : " ++ SerialSettingsDialog.stringBaudRate p
           ++ ", " ++ SerialSettingsDialog.stringDataBits p
           ++ ", " ++ SerialSettingsDialog.stringParity p
           ++ ", " ++ SerialSettingsDialog.stringStopBits p
           ++ ", " ++ SerialSettingsDialog.stringFlowControl p)%string)
  /\ (StewartPlatform.m_settings w' = StewartPlatform.m_settings w
      /\ StewartPlatform.leap w' = StewartPlatform.leap w
      /\ StewartPlatform.actuator_positions w' = StewartPlatform.actuator_positions w
      /\ Ui.label_leap_val (StewartPlatform.ui w')
         = Ui.label_leap_val (StewartPlatform.ui w)
      /\ Ui.actuatorBox (StewartPlatform.ui w') = Ui.actuatorBox (StewartPlatform.ui w))
  /\ (forall (os : QSerialPort.open_attempt),
         let r := StewartPlatform.m_serial
                    (StewartPlatform.openSerialPort now1 now2 os w) in
         QSerialPort.portName r = SerialSettingsDialog.name p
         /\ QSerialPort.baudRate r = SerialSettingsDialog.baudRate p
         /\ QSerialPort.dataBits r = SerialSettingsDialog.dataBits p
         /\ QSerialPort.parity r = SerialSettingsDialog.parity p
         /\ QSerialPort.stopBits r = SerialSettingsDialog.stopBits p
         /\ QSerialPort.flowControl r = SerialSettingsDialog.flowControl p)
  /\ (forall now3 now4 : string,
         let w'' := StewartPlatform.openSerialPort now3 now4 QSerialPort.Opens w' in
         StewartPlatform.m_serial w'' = port'
         /\ Ui.label_serial_val (StewartPlatform.ui w'')
            = Ui.label_serial_val (StewartPlatform.ui w')
         /\ Ui.button_send (StewartPlatform.ui w'') = Ui.button_send (StewartPlatform.ui w')
         /\ Ui.log (StewartPlatform.ui w'')
            = (Ui.log (StewartPlatform.ui w')
                 ++ [("(" ++ now3 ++ ") <COM>  Disconnected from "
                          ++ SerialSettingsDialog.name p)%string;
                     ("(" ++ now4 ++ ") " ++ StewartPlatform.connected_message p)%string])%list).
Proof.
  intros p port w' port'.
  assert (Hport : port' = QSerialPort.mk true (SerialSettingsDialog.name p)
                    (SerialSettingsDialog.baudRate p) (SerialSettingsDialog.dataBits p)
                    (SerialSettingsDialog.parity p) (SerialSettingsDialog.stopBits p)
                    (SerialSettingsDialog.flowControl p) "No error"
                    (QSerialPort.written port))
    by apply openSerialPort_port_opened.
  assert (Hlabel : forall n1 n2 x,
             Ui.label_serial_val
               (StewartPlatform.ui (StewartPlatform.openSerialPort n1 n2 QSerialPort.Opens x))
             = SerialSettingsDialog.name
                 (SerialSettingsDialog.settings (StewartPlatform.m_settings x))
             /\ Ui.button_send
                  (StewartPlatform.ui
                     (StewartPlatform.openSerialPort n1 n2 QSerialPort.Opens x)) = true).
  { intros n1 n2 x. pose proof (closeSerialPort_closed n1 x) as Hc.
    destruct (closeSerialPort_rest n1 x) as (_ & Hd & _).
    unfold StewartPlatform.openSerialPort.
    set (c := StewartPlatform.closeSerialPort n1 x) in *.
    unfold QSerialPort.open. simpl. rewrite Hc. simpl.
    rewrite Hd. split; [apply arg_whole | reflexivity]. }
  destruct (openSerialPort_rest now1 now2 QSerialPort.Opens w)
    as (Hd & Hl & Hp & Hll & Hbox).
  fold w' in Hd, Hl, Hp, Hll, Hbox.
  split; [rewrite Hport; simpl; repeat split |].
  split; [apply Hlabel |]. split; [apply Hlabel |].
  split.
  { unfold w'. rewrite openSerialPort_log_opened, closeSerialPort_log.
    now rewrite <- List.app_assoc. }
  split; [apply connected_message_plain |].
  split; [repeat split; assumption |].
  split.
  { intros [|e] r; unfold r.
    - rewrite openSerialPort_port_opened. simpl. repeat split.
    - rewrite openSerialPort_port_refused. simpl. repeat split. }
  intros now3 now4 w''.
  split.
  { unfold w''. rewrite openSerialPort_port_opened. fold port'.
    rewrite Hd. fold p. rewrite Hport. reflexivity. }
  destruct (Hlabel now3 now4 w') as [Hl2 Hb2]. fold w'' in Hl2, Hb2.
  destruct (Hlabel now1 now2 w) as [Hl1 Hb1]. fold w' p in Hl1, Hb1.
  split; [rewrite Hl2, Hl1, Hd; reflexivity |].
  split; [now rewrite Hb2, Hb1 |].
  unfold w''. rewrite openSerialPort_log_opened, closeSerialPort_log.
  fold port'. rewrite Hd. fold p. rewrite Hport. simpl.
  now rewrite <- List.app_assoc.
Qed.

Lemma openSerialPort_success_witness :
  Ui.label_serial_val (StewartPlatform.ui session_connected) = "COM3"%string
  /\ Ui.log (StewartPlatform.ui session_connected)
     = ["(10:00:00) <COM>  Connected to COM3 : 9600, 8, None, 1, None"%string].
Proof.
  destruct (openSerialPort_success "10:00:00" "10:00:00" session_start)
    as (_ & Hlabel & _ & Hlog & Hmsg & _).
  split; [exact Hlabel |].
  unfold session_connected. rewrite Hlog, (Hmsg eq_refl). reflexivity.
Defined.

(** C3.  [openSerialPort] with the device refusing, from a state in which
    the send button follows the connection (every reachable state): the
    port is closed afterwards, the send button is disabled, the port
    keeps the refusal as its error text, and the last paragraph of the log
    is "Connection error:" with that text; nothing was written. *)
Theorem openSerialPort_failure (now1 now2 e : string) (w : StewartPlatform.t) :
  StewartPlatform.send_follows_connection w ->
  let port := StewartPlatform.m_serial w in
  let w' := StewartPlatform.openSerialPort now1 now2 (QSerialPort.Refused e) w in
  QSerialPort.isOpen (StewartPlatform.m_serial w') = false
  /\ Ui.button_send (StewartPlatform.ui w') = false
  /\ QSerialPort.errorString (StewartPlatform.m_serial w') = e
  /\ Ui.log (StewartPlatform.ui w')
     = (Ui.log (StewartPlatform.ui w)
          ++ (if QSerialPort.isOpen port
              then [("(" ++ now1 ++ ") <COM>  Disconnected from "
                         ++ QSerialPort.portName port)%string]
              else [])
          ++ [("(" ++ now2 ++ ") <COM>  Connection error: " ++ e)%string])%list
  /\ Ui.label_serial_val (StewartPlatform.ui w')
     = (if QSerialPort.isOpen port then "Disconnected"%string
        else Ui.label_serial_val (StewartPlatform.ui w))
  /\ QSerialPort.written (StewartPlatform.m_serial w') = QSerialPort.written port
  /\ StewartPlatform.actuator_positions w' = StewartPlatform.actuator_positions w
  /\ StewartPlatform.leap w' = StewartPlatform.leap w.
Proof.
  intros Hinv port w'.
  pose proof (openSerialPort_port_refused now1 now2 e w) as Hport.
  simpl in Hport. fold w' in Hport.
  pose proof (openSerialPort_send now1 now2 (QSerialPort.Refused e) w Hinv) as Hinv'.
  fold w' in Hinv'. unfold StewartPlatform.send_follows_connection in Hinv'.
  destruct (openSerialPort_rest now1 now2 (QSerialPort.Refused e) w)
    as (_ & Hl & Hp & _).
  split; [now rewrite Hport |].
  split; [rewrite Hinv'; now rewrite Hport |].
  split; [now rewrite Hport |].
  split.
  { unfold w'. rewrite openSerialPort_log_refused, closeSerialPort_log.
    now rewrite <- List.app_assoc. }
  split.
  { pose proof (closeSerialPort_closed now1 w) as Hc.
    unfold w', StewartPlatform.openSerialPort.
    set (c := StewartPlatform.closeSerialPort now1 w) in *.
    unfold QSerialPort.open. simpl. rewrite Hc. simpl.
    unfold c, StewartPlatform.closeSerialPort. fold port.
    now destruct (QSerialPort.isOpen port). }
  split; [now rewrite Hport |].
  split; assumption.
Qed.

Lemma openSerialPort_failure_witness :
  StewartPlatform.send_follows_connection session_connected
  /\ let w' := StewartPlatform.openSerialPort "10:00:08" "10:00:09"
                 (QSerialPort.Refused "Permission denied") session_connected in
     QSerialPort.isOpen (StewartPlatform.m_serial w') = false
     /\ Ui.button_send (StewartPlatform.ui w') = false
     /\ Ui.log (StewartPlatform.ui w')
        = ["(10:00:00) <COM>  Connected to COM3 : 9600, 8, None, 1, None";
           "(10:00:08) <COM>  Disconnected from COM3";
           "(10:00:09) <COM>  Connection error: Permission denied"]%string.
Proof.
  split; [reflexivity |].
  destruct (openSerialPort_failure "10:00:08" "10:00:09" "Permission denied"
                                   session_connected eq_refl)
    as (Hopen & Hsend & _ & Hlog & _).
  cbv zeta. split; [exact Hopen | split; [exact Hsend | exact Hlog]].
Defined.

(** C4.  The port's [errorOccurred] signal runs [closeSerialPort] and
    nothing else, whatever the error.  Afterwards the port is closed; if it
    was open the send button is now disabled, and in every state where the
    button follows the connection it is disabled.  A further firing, and
    any sequence of further firings, returns the same state: no entry is
    logged twice, the port is not opened again, nothing is written. *)
Theorem errorOccurred_closes (now : string) (w : StewartPlatform.t) :
  let w' := StewartPlatform.closeSerialPort now w in
  StewartPlatform.deliver (StewartPlatform.errorOccurred now) w = Returns w'
  /\ QSerialPort.isOpen (StewartPlatform.m_serial w') = false
  /\ (QSerialPort.isOpen (StewartPlatform.m_serial w) = true ->
      Ui.button_send (StewartPlatform.ui w') = false)
  /\ (StewartPlatform.send_follows_connection w ->
      Ui.button_send (StewartPlatform.ui w') = false)
  /\ (forall now' : string,
         StewartPlatform.deliver (StewartPlatform.errorOccurred now') w' = Returns w')
  /\ (forall nows : list string,
         StewartPlatform.run (map StewartPlatform.errorOccurred nows) w' = Returns w')
  /\ QSerialPort.written (StewartPlatform.m_serial w')
     = QSerialPort.written (StewartPlatform.m_serial w).
Proof.
  intros w'.
  assert (Hclosed : QSerialPort.isOpen (StewartPlatform.m_serial w') = false)
    by apply closeSerialPort_closed.
  assert (Hagain : forall now', StewartPlatform.closeSerialPort now' w' = w')
    by (intros now'; now apply closeSerialPort_not_open).
  split; [reflexivity |]. split; [exact Hclosed |].
  split.
  { intros Hopen. unfold w', StewartPlatform.closeSerialPort. now rewrite Hopen. }
  split.
  { intros Hinv. apply (closeSerialPort_send now) in Hinv. fold w' in Hinv.
    unfold StewartPlatform.send_follows_connection in Hinv. congruence. }
  split.
  { intros now'. simpl. now rewrite Hagain. }
  split.
  { induction nows as [|n r IH]; simpl; [reflexivity |]. now rewrite Hagain. }
  destruct (closeSerialPort_rest now w) as (Hs & _). fold w' in Hs.
  rewrite Hs. reflexivity.
Qed.

Lemma errorOccurred_closes_witness :
  StewartPlatform.run
    [StewartPlatform.errorOccurred "10:00:05"; StewartPlatform.errorOccurred "10:00:06";
     StewartPlatform.errorOccurred "10:00:07"] session_connected
  = Returns (StewartPlatform.closeSerialPort "10:00:05" session_connected)
  /\ Ui.button_send
       (StewartPlatform.ui (StewartPlatform.closeSerialPort "10:00:05" session_connected))
     = false.
Proof.
  destruct (errorOccurred_closes "10:00:05" session_connected)
    as (Hfirst & _ & Hsend & _ & _ & Hmany & _).
  split.
  - change (StewartPlatform.run
              (StewartPlatform.errorOccurred "10:00:05"
                 :: map StewartPlatform.errorOccurred ["10:00:06"; "10:00:07"]%string)
              session_connected
            = Returns (StewartPlatform.closeSerialPort "10:00:05" session_connected)).
    cbn [StewartPlatform.run]. rewrite Hfirst. cbn [bind]. apply Hmany.
  - apply Hsend. reflexivity.
Defined.

(** C6.  [writeSerialData] asserts that the port is open.  On an open port
    the assertion holds and the slot hands the bytes to the port in one
    [write], reads nothing back and returns; the state differs only by
    these bytes following what was written before.  On a port that is not
    open the assertion fails: the run stops there and no state results. *)
Theorem writeSerialData_contract (data : string) (w : StewartPlatform.t) :
  (QSerialPort.isOpen (StewartPlatform.m_serial w) = true ->
   Q_ASSERT (QSerialPort.isOpen (StewartPlatform.m_serial w)) serial_isOpen = Returns tt
   /\ exists w',
       StewartPlatform.writeSerialData data w = Returns w'
       /\ QSerialPort.written (StewartPlatform.m_serial w')
          = (QSerialPort.written (StewartPlatform.m_serial w) ++ [data])%list
       /\ w' = StewartPlatform.with_serial
                 (fun port => QSerialPort.mk
                      (QSerialPort.isOpen port) (QSerialPort.portName port)
                      (QSerialPort.baudRate port) (QSerialPort.dataBits port)
                      (QSerialPort.parity port) (QSerialPort.stopBits port)
                      (QSerialPort.flowControl port) (QSerialPort.errorString port)
                      (QSerialPort.written port ++ [data])) w)
  /\ (QSerialPort.isOpen (StewartPlatform.m_serial w) = false ->
      StewartPlatform.writeSerialData data w = AssertionFailure serial_isOpen
      /\ forall w', StewartPlatform.writeSerialData data w <> Returns w').
Proof.
  unfold StewartPlatform.writeSerialData. split; intros H; rewrite H; simpl.
  - split; [reflexivity |].
    eexists. split; [reflexivity |].
    unfold StewartPlatform.with_serial, QSerialPort.write. simpl.
    rewrite H. simpl. split; reflexivity.
  - split; [reflexivity | discriminate].
Qed.

Lemma writeSerialData_contract_witness :
  (exists w', StewartPlatform.writeSerialData "0 0" session_connected = Returns w'
              /\ QSerialPort.written (StewartPlatform.m_serial w') = ["0 0"%string])
  /\ StewartPlatform.writeSerialData "0 0" session_start = AssertionFailure serial_isOpen.
Proof.
  destruct (writeSerialData_contract "0 0" session_connected) as [Hopen _].
  destruct (writeSerialData_contract "0 0" session_start) as [_ Hclosed].
  split.
  - destruct (Hopen eq_refl) as (_ & w' & Hw & Hwritten & _).
    exists w'. split; [exact Hw | exact Hwritten].
  - apply (Hclosed eq_refl).
Defined.

Section Leap.

Import StewartPlatform.

Lemma list_app_one_neq {A : Type} (l : list A) (x : A) : (l ++ [x])%list <> l.
Proof.
  intros E. apply (f_equal (@List.length A)) in E.
  rewrite List.length_app in E. simpl in E. lia.
Qed.

End Leap.

(** C7.  A frame of six values arriving at the Leap listener.  With the
    listener's flag set, the frame is emitted and its slot does exactly
    what the serial write of the frame's command line does; with the flag
    clear nothing is emitted and the state is the same.  Whenever the
    handling returns, the vector of actuator positions is what it was.  On
    an open port the handling returns, and the line is appended to what the
    port was given if and only if the flag is set.  The slot itself, once
    the signal is emitted, does not look at the flag. *)
Theorem leap_frame_forwarding (v1 v2 v3 v4 v5 v6 : Z) (w : StewartPlatform.t) :
  let v := [v1; v2; v3; v4; v5; v6] in
  let line := wire_format v1 v2 v3 v4 v5 v6 in
  let enabled := LeapEventListener.is_leap_enabled (StewartPlatform.leap w) in
  (enabled = true ->
   StewartPlatform.leap_frame v w = StewartPlatform.writeSerialData line w)
  /\ (enabled = false -> StewartPlatform.leap_frame v w = Returns w)
  /\ (forall w', StewartPlatform.leap_frame v w = Returns w' ->
                 StewartPlatform.actuator_positions w'
                 = StewartPlatform.actuator_positions w)
  /\ (QSerialPort.isOpen (StewartPlatform.m_serial w) = true ->
      exists w',
        StewartPlatform.leap_frame v w = Returns w'
        /\ (QSerialPort.written (StewartPlatform.m_serial w')
            = (QSerialPort.written (StewartPlatform.m_serial w) ++ [line])%list
            <-> enabled = true)
        /\ (QSerialPort.written (StewartPlatform.m_serial w')
            = QSerialPort.written (StewartPlatform.m_serial w)
            <-> enabled = false)
        /\ StewartPlatform.actuator_positions w' = StewartPlatform.actuator_positions w
        /\ StewartPlatform.ui w' = StewartPlatform.ui w
        /\ StewartPlatform.leap w' = StewartPlatform.leap w)
  /\ StewartPlatform.deliver (StewartPlatform.LeapFrameUpdate v) w
     = StewartPlatform.writeSerialData line w.
Proof.
  intros v line enabled.
  assert (Hsig : StewartPlatform.deliver (StewartPlatform.LeapFrameUpdate v) w
                 = StewartPlatform.writeSerialData line w).
  { simpl. unfold StewartPlatform.sendActuatorPositions, v.
    now rewrite command_line_wire_format. }
  assert (Hon : enabled = true ->
                StewartPlatform.leap_frame v w = StewartPlatform.writeSerialData line w).
  { intros E. unfold StewartPlatform.leap_frame, LeapEventListener.onFrame.
    fold enabled. rewrite E. exact Hsig. }
  assert (Hoff : enabled = false -> StewartPlatform.leap_frame v w = Returns w).
  { intros E. unfold StewartPlatform.leap_frame, LeapEventListener.onFrame.
    fold enabled. now rewrite E. }
  split; [exact Hon |]. split; [exact Hoff |].
  split.
  { intros w' H. destruct enabled eqn:E.
    - rewrite (Hon eq_refl) in H. now apply writeSerialData_positions in H.
    - rewrite (Hoff eq_refl) in H. now injection H as <-. }
  split; [| exact Hsig].
  intros Hopen. destruct enabled eqn:E.
  - rewrite (Hon eq_refl). clear Hon Hoff Hsig.
    destruct w as [u d [o pn b db pa sb fc es wr] l a]. simpl in Hopen. subst o.
    eexists. split; [reflexivity |]. simpl.
    repeat split; try reflexivity; try discriminate.
    intros H. now apply list_app_one_neq in H.
  - rewrite (Hoff eq_refl). exists w. split; [reflexivity |].
    repeat split; try reflexivity; try discriminate.
    intros H. symmetry in H. now apply list_app_one_neq in H.
Qed.

Lemma leap_frame_forwarding_witness :
  let w := StewartPlatform.enableLeapMotion true session_connected in
  (exists w', StewartPlatform.leap_frame [1; 2; 3; 4; 5; 6] w = Returns w'
              /\ QSerialPort.written (StewartPlatform.m_serial w')
                 = [("1 2 3 4 5 6" ++ newline)%string])
  /\ StewartPlatform.leap_frame [1; 2; 3; 4; 5; 6] session_connected
     = Returns session_connected.
Proof.
  cbv zeta.
  destruct (leap_frame_forwarding
              1 2 3 4 5 6 (StewartPlatform.enableLeapMotion true session_connected))
    as (_ & _ & _ & Hopen & _).
  destruct (leap_frame_forwarding 1 2 3 4 5 6 session_connected)
    as (_ & Hoff & _).
  split.
  - destruct (Hopen eq_refl) as (w' & Hw & [_ Hline] & _).
    exists w'. split; [exact Hw | exact (Hline eq_refl)].
  - exact (Hoff eq_refl).
Defined.

(** C8.  Checking the Leap box runs [enableLeapMotion(true)]: the actuator
    box is disabled and the listener's flag set.  Unchecking it runs
    [enableLeapMotion(false)]: the box is enabled and the flag clear.  From
    a state with the box enabled and the flag clear, checking and then
    unchecking gives back that very state; and after any toggle, toggling
    there and back gives back the state. *)
Theorem enableLeapMotion_toggle (w : StewartPlatform.t) :
  let on := StewartPlatform.enableLeapMotion true w in
  let off := StewartPlatform.enableLeapMotion false on in
  StewartPlatform.deliver (StewartPlatform.enable_leap_motion_toggled true) w = Returns on
  /\ StewartPlatform.deliver (StewartPlatform.enable_leap_motion_toggled false) on
     = Returns off
  /\ (Ui.actuatorBox (StewartPlatform.ui on) = false
      /\ LeapEventListener.is_leap_enabled (StewartPlatform.leap on) = true)
  /\ (Ui.actuatorBox (StewartPlatform.ui off) = true
      /\ LeapEventListener.is_leap_enabled (StewartPlatform.leap off) = false)
  /\ (Ui.actuatorBox (StewartPlatform.ui w) = true ->
      LeapEventListener.is_leap_enabled (StewartPlatform.leap w) = false ->
      off = w)
  /\ (forall c : bool,
         StewartPlatform.enableLeapMotion c
           (StewartPlatform.enableLeapMotion (negb c)
              (StewartPlatform.enableLeapMotion c w))
         = StewartPlatform.enableLeapMotion c w)
  /\ (StewartPlatform.m_serial on = StewartPlatform.m_serial w
      /\ StewartPlatform.actuator_positions on = StewartPlatform.actuator_positions w
      /\ Ui.button_send (StewartPlatform.ui on) = Ui.button_send (StewartPlatform.ui w)
      /\ Ui.log (StewartPlatform.ui on) = Ui.log (StewartPlatform.ui w)).
Proof.
  intros on off.
  split; [reflexivity |]. split; [reflexivity |].
  split; [split; reflexivity |]. split; [split; reflexivity |].
  split.
  { destruct w as [[ls ll bs box lg] d s [flag] a]. simpl.
    intros -> ->. reflexivity. }
  split; [intros c; reflexivity |].
  repeat split.
Qed.

Lemma enableLeapMotion_toggle_witness :
  StewartPlatform.enableLeapMotion false
    (StewartPlatform.enableLeapMotion true session_connected)
  = session_connected.
Proof.
  destruct (enableLeapMotion_toggle session_connected) as (_ & _ & _ & _ & H & _).
  apply H; reflexivity.
Defined.

(** C9.  The slot connected to the listener's frame signal builds the line
    and calls the serial write without asking whether the port is open.
    Straight after construction, checking the Leap box gives a reachable
    state with the flag set and the port closed; a frame delivered there
    reaches [Q_ASSERT(m_serial->isOpen())] in the write and fails it.  The
    same holds in any state whose port is closed. *)
Theorem leap_frame_unguarded
        (ui0 : Ui.t) (dialog : SerialSettingsDialog.t)
        (listener : LeapEventListener.t) (v1 v2 v3 v4 v5 v6 : Z) :
  let v := [v1; v2; v3; v4; v5; v6] in
  let w0 := StewartPlatform.constructor ui0 dialog listener in
  let w := StewartPlatform.enableLeapMotion true w0 in
  StewartPlatform.reachable w
  /\ LeapEventListener.is_leap_enabled (StewartPlatform.leap w) = true
  /\ QSerialPort.isOpen (StewartPlatform.m_serial w) = false
  /\ StewartPlatform.leap_frame v w = AssertionFailure serial_isOpen
  /\ StewartPlatform.run
       [StewartPlatform.enable_leap_motion_toggled true;
        StewartPlatform.LeapFrameUpdate v] w0
     = AssertionFailure serial_isOpen
  /\ (forall x : StewartPlatform.t,
         QSerialPort.isOpen (StewartPlatform.m_serial x) = false ->
         StewartPlatform.deliver (StewartPlatform.LeapFrameUpdate v) x
         = AssertionFailure serial_isOpen).
Proof.
  intros v w0 w.
  assert (Hany : forall x : StewartPlatform.t,
             QSerialPort.isOpen (StewartPlatform.m_serial x) = false ->
             StewartPlatform.deliver (StewartPlatform.LeapFrameUpdate v) x
             = AssertionFailure serial_isOpen).
  { intros x Hx. simpl. unfold StewartPlatform.sendActuatorPositions, v.
    rewrite command_line_wire_format. simpl.
    unfold StewartPlatform.writeSerialData. now rewrite Hx. }
  split.
  { apply StewartPlatform.reach_deliver
      with (e := StewartPlatform.enable_leap_motion_toggled true) (w := w0).
    - apply StewartPlatform.reach_constructor.
    - reflexivity. }
  split; [reflexivity |]. split; [reflexivity |].
  split; [apply (Hany w); reflexivity |].
  split; [| exact Hany].
  change (bind (StewartPlatform.deliver (StewartPlatform.LeapFrameUpdate v) w)
               (fun w' => StewartPlatform.run [] w')
          = AssertionFailure serial_isOpen).
  rewrite (Hany w) by reflexivity. reflexivity.
Qed.

Lemma leap_frame_unguarded_witness :
  StewartPlatform.deliver (StewartPlatform.LeapFrameUpdate [0; 0; 0; 0; 0; 0])
                          session_start
  = AssertionFailure serial_isOpen.
Proof.
  destruct (leap_frame_unguarded ui_form (SerialSettingsDialog.mk COM3)
                                 (LeapEventListener.mk false) 0 0 0 0 0 0)
    as (_ & _ & _ & _ & _ & H).
  apply H. reflexivity.
Defined.

(** The send button after a successful opening. *)
Lemma openSerialPort_button_opened (now1 now2 : string) (w : StewartPlatform.t) :
  Ui.button_send
    (StewartPlatform.ui (StewartPlatform.openSerialPort now1 now2 QSerialPort.Opens w))
  = true.
Proof.
  pose proof (closeSerialPort_closed now1 w) as Hc.
  unfold StewartPlatform.openSerialPort.
  set (c := StewartPlatform.closeSerialPort now1 w) in *.
  unfold QSerialPort.open. simpl. rewrite Hc. reflexivity.
Qed.

(** C10.  Straight after construction the six positions are all zero, the
    send button is disabled, both status labels read "Disconnected", the
    port is closed and nothing has been written.  If the port then opens
    and the send button is pressed, what the port is given is exactly one
    line, "0 0 0 0 0 0" and a line feed. *)
Theorem constructor_initial_state
        (ui0 : Ui.t) (dialog : SerialSettingsDialog.t) (listener : LeapEventListener.t) :
  let w0 := StewartPlatform.constructor ui0 dialog listener in
  StewartPlatform.actuator_positions w0 = [0; 0; 0; 0; 0; 0]
  /\ Ui.button_send (StewartPlatform.ui w0) = false
  /\ Ui.label_serial_val (StewartPlatform.ui w0) = "Disconnected"%string
  /\ Ui.label_leap_val (StewartPlatform.ui w0) = "Disconnected"%string
  /\ QSerialPort.isOpen (StewartPlatform.m_serial w0) = false
  /\ QSerialPort.written (StewartPlatform.m_serial w0) = []
  /\ (forall (dialog' : SerialSettingsDialog.t) (now1 now2 : string),
         exists w2,
           StewartPlatform.run
             [StewartPlatform.SettingsUpdated dialog' now1 now2 QSerialPort.Opens;
              StewartPlatform.button_send_clicked] w0
           = Returns w2
           /\ QSerialPort.isOpen (StewartPlatform.m_serial w2) = true
           /\ QSerialPort.written (StewartPlatform.m_serial w2)
              = [("0 0 0 0 0 0" ++ newline)%string]).
Proof.
  intros w0. repeat split.
  intros dialog' now1 now2.
  set (w1 := StewartPlatform.openSerialPort now1 now2 QSerialPort.Opens
               (StewartPlatform.set_m_settings dialog' w0)).
  assert (Hb : Ui.button_send (StewartPlatform.ui w1) = true)
    by apply openSerialPort_button_opened.
  assert (Hp : StewartPlatform.actuator_positions w1 = [0; 0; 0; 0; 0; 0])
    by (unfold w1; now rewrite openSerialPort_positions).
  assert (Ho : QSerialPort.isOpen (StewartPlatform.m_serial w1) = true)
    by (unfold w1; now rewrite openSerialPort_port_opened).
  assert (Hw : QSerialPort.written (StewartPlatform.m_serial w1) = [])
    by (unfold w1; now rewrite openSerialPort_port_opened).
  exists (StewartPlatform.with_serial
            (QSerialPort.write (wire_format 0 0 0 0 0 0)) w1).
  split; [| split].
  - change (bind (StewartPlatform.deliver StewartPlatform.button_send_clicked w1)
                 (fun w' => StewartPlatform.run [] w')
            = Returns (StewartPlatform.with_serial
                         (QSerialPort.write (wire_format 0 0 0 0 0 0)) w1)).
    cbn [StewartPlatform.deliver]. rewrite Hb.
    unfold StewartPlatform.sendActuatorPositions.
    rewrite Hp, command_line_wire_format. cbn [bind].
    unfold StewartPlatform.writeSerialData. rewrite Ho. reflexivity.
  - cbn [StewartPlatform.with_serial StewartPlatform.m_serial].
    unfold QSerialPort.write. rewrite Ho. exact Ho.
  - cbn [StewartPlatform.with_serial StewartPlatform.m_serial].
    unfold QSerialPort.write. rewrite Ho. cbn [QSerialPort.written].
    rewrite Hw. reflexivity.
Qed.

(** * Further properties of the code *)

(** ** Command lines read back *)
Section Decoding.

Import StewartPlatform.

Lemma chomp_line (body : string) : chomp (body ++ newline) = Some body.
Proof.
  induction body as [|c r IH]; [reflexivity |].
  change (String c r ++ newline)%string with (String c (r ++ newline)).
  simpl chomp. rewrite IH.
  destruct r; reflexivity.
Qed.

Lemma fields_of_six (v1 v2 v3 v4 v5 v6 : Z) :
  fields (QString.number v1 ++ " " ++ QString.number v2 ++ " "
            ++ QString.number v3 ++ " " ++ QString.number v4 ++ " "
            ++ QString.number v5 ++ " " ++ QString.number v6)
  = [QString.number v1; QString.number v2; QString.number v3;
     QString.number v4; QString.number v5; QString.number v6].
Proof.
  unfold fields.
  rewrite !fields_from_field by (apply number_without, space_is_no_number_char).
  rewrite fields_from_last by (apply number_without, space_is_no_number_char).
  reflexivity.
Qed.

Lemma decode_wire_format (v1 v2 v3 v4 v5 v6 : Z) :
  decode (wire_format v1 v2 v3 v4 v5 v6) = Some [v1; v2; v3; v4; v5; v6].
Proof.
  unfold decode, wire_format.
  rewrite <- !append_assoc, chomp_line, !append_assoc.
  cbv zeta. rewrite fields_of_six. simpl. now rewrite !toInt_number.
Qed.

(** A vector on which the loop returns has six elements or more, and the
    line is the wire format of the first six. *)
Lemma command_line_returns (v : list Z) (line : string) :
  command_line v = Returns line ->
  exists v1 v2 v3 v4 v5 v6 rest,
    v = v1 :: v2 :: v3 :: v4 :: v5 :: v6 :: rest
    /\ line = wire_format v1 v2 v3 v4 v5 v6.
Proof.
  destruct v as [|v1 [|v2 [|v3 [|v4 [|v5 [|v6 rest]]]]]]; try discriminate.
  intros H. exists v1, v2, v3, v4, v5, v6, rest. split; [reflexivity |].
  unfold command_line in H. simpl in H. injection H as <-.
  unfold wire_format. now rewrite !append_assoc.
Qed.

Lemma command_line_is_command (v : list Z) (line : string) :
  command_line v = Returns line -> is_command line.
Proof.
  intros H. apply command_line_returns in H
    as (v1 & v2 & v3 & v4 & v5 & v6 & rest & _ & ->).
  exists [v1; v2; v3; v4; v5; v6]. split; [apply decode_wire_format | reflexivity].
Qed.

End Decoding.

(** X1.  The command line can be read back: dropping the line feed,
    cutting at the spaces and reading six decimal integers returns the six
    values the line was built from.  So two different six-value vectors
    never give the same line. *)
Theorem wire_format_round_trip (v1 v2 v3 v4 v5 v6 u1 u2 u3 u4 u5 u6 : Z) :
  (exists line,
      StewartPlatform.command_line [v1; v2; v3; v4; v5; v6] = Returns line
      /\ decode line = Some [v1; v2; v3; v4; v5; v6])
  /\ (StewartPlatform.command_line [v1; v2; v3; v4; v5; v6]
      = StewartPlatform.command_line [u1; u2; u3; u4; u5; u6] ->
      [v1; v2; v3; v4; v5; v6] = [u1; u2; u3; u4; u5; u6]).
Proof.
  split.
  - exists (wire_format v1 v2 v3 v4 v5 v6).
    split; [apply command_line_wire_format | apply decode_wire_format].
  - rewrite !command_line_wire_format. intros [= H].
    apply (f_equal decode) in H. rewrite !decode_wire_format in H.
    now injection H as -> -> -> -> -> ->.
Qed.

Lemma wire_format_round_trip_witness :
  [-7; 0; 12; 3; 4; 5] = [-7; 0; 12; 3; 4; 5].
Proof.
  apply (wire_format_round_trip (-7) 0 12 3 4 5 (-7) 0 12 3 4 5). reflexivity.
Defined.

(** X2.  [sendActuatorPositions] on a vector with fewer than
    [NUM_ACTUATORS] elements stops in the loop, at the index one past the
    vector's end, before the serial write is reached: this is so whether
    the port is open or closed, and nothing is handed to the port. *)
Theorem sendActuatorPositions_short_vector (v : list Z) (w : StewartPlatform.t) :
  (List.length v < NUM_ACTUATORS)%nat ->
  StewartPlatform.sendActuatorPositions v w
  = AssertionFailure (index_in_range (List.length v))
  /\ StewartPlatform.deliver (StewartPlatform.LeapFrameUpdate v) w
     = AssertionFailure (index_in_range (List.length v))
  /\ forall w', StewartPlatform.sendActuatorPositions v w <> Returns w'.
Proof.
  intros H.
  assert (E : StewartPlatform.sendActuatorPositions v w
              = AssertionFailure (index_in_range (List.length v))).
  { unfold StewartPlatform.sendActuatorPositions, StewartPlatform.command_line.
    rewrite loop_needs_elements by lia. reflexivity. }
  split; [exact E |]. split; [exact E |].
  intros w'. rewrite E. discriminate.
Qed.

Lemma sendActuatorPositions_short_vector_witness :
  StewartPlatform.sendActuatorPositions [1; 2; 3] session_connected
  = AssertionFailure (index_in_range 3).
Proof.
  apply (sendActuatorPositions_short_vector [1; 2; 3] session_connected).
  simpl. unfold NUM_ACTUATORS. lia.
Defined.

(** X3.  [sendActuatorPositions] reads the first [NUM_ACTUATORS] elements
    only: on a vector of six or more the line is the one of its first six
    elements, whatever follows them, and on an open port exactly that line
    is handed to the port. *)
Theorem sendActuatorPositions_long_vector (v : list Z) (w : StewartPlatform.t) :
  (NUM_ACTUATORS <= List.length v)%nat ->
  StewartPlatform.command_line v
  = StewartPlatform.command_line (firstn NUM_ACTUATORS v)
  /\ exists line,
      StewartPlatform.command_line v = Returns line
      /\ decode line = Some (firstn NUM_ACTUATORS v)
      /\ (QSerialPort.isOpen (StewartPlatform.m_serial w) = true ->
          exists w',
            StewartPlatform.sendActuatorPositions v w = Returns w'
            /\ QSerialPort.written (StewartPlatform.m_serial w')
               = (QSerialPort.written (StewartPlatform.m_serial w) ++ [line])%list).
Proof.
  intros H.
  destruct v as [|v1 [|v2 [|v3 [|v4 [|v5 [|v6 rest]]]]]];
    try (simpl in H; unfold NUM_ACTUATORS in H; lia).
  change (firstn NUM_ACTUATORS (v1 :: v2 :: v3 :: v4 :: v5 :: v6 :: rest))
    with [v1; v2; v3; v4; v5; v6].
  assert (E : StewartPlatform.command_line (v1 :: v2 :: v3 :: v4 :: v5 :: v6 :: rest)
              = Returns (wire_format v1 v2 v3 v4 v5 v6)).
  { rewrite <- command_line_wire_format. reflexivity. }
  split; [now rewrite E, command_line_wire_format |].
  exists (wire_format v1 v2 v3 v4 v5 v6).
  split; [exact E |]. split; [apply decode_wire_format |].
  intros Hopen. unfold StewartPlatform.sendActuatorPositions. rewrite E.
  cbn [bind]. unfold StewartPlatform.writeSerialData. rewrite Hopen. cbn [Q_ASSERT bind].
  eexists. split; [reflexivity |].
  unfold StewartPlatform.with_serial, QSerialPort.write. cbn. rewrite Hopen. reflexivity.
Qed.

Lemma sendActuatorPositions_long_vector_witness :
  exists w',
    StewartPlatform.sendActuatorPositions [1; 2; 3; 4; 5; 6; 7; 8] session_connected
    = Returns w'
    /\ QSerialPort.written (StewartPlatform.m_serial w')
       = [("1 2 3 4 5 6" ++ newline)%string].
Proof.
  destruct (sendActuatorPositions_long_vector [1; 2; 3; 4; 5; 6; 7; 8] session_connected)
    as (_ & line & Hline & _ & Hsend).
  { simpl. unfold NUM_ACTUATORS. lia. }
  destruct (Hsend eq_refl) as (w' & Hw & Hwritten).
  exists w'. split; [exact Hw |].
  rewrite Hwritten. injection Hline as <-. reflexivity.
Defined.

(** ** What the signals can and cannot change *)
Section Frames.

Import SerialSettingsDialog StewartPlatform.

Lemma session_connected_reachable : reachable session_connected.
Proof.
  apply reach_deliver
    with (e := SettingsUpdated (SerialSettingsDialog.mk COM3)
                               "10:00:00" "10:00:00" QSerialPort.Opens)
         (w := session_start).
  - apply reach_constructor.
  - cbn [deliver]. unfold session_connected. do 2 f_equal.
Qed.

Lemma closeSerialPort_label (now : string) (w : t) :
  Ui.label_serial_val (ui (closeSerialPort now w))
  = if QSerialPort.isOpen (m_serial w) then "Disconnected"%string
    else Ui.label_serial_val (ui w).
Proof.
  unfold closeSerialPort. now destruct (QSerialPort.isOpen (m_serial w)).
Qed.

Lemma closeSerialPort_follows (now : string) (w : t) :
  label_follows_connection w -> label_follows_connection (closeSerialPort now w).
Proof.
  unfold label_follows_connection. intros H.
  rewrite closeSerialPort_label, closeSerialPort_closed.
  destruct (QSerialPort.isOpen (m_serial w)); [reflexivity | exact H].
Qed.

Lemma openSerialPort_label
      (now1 now2 : string) (os : QSerialPort.open_attempt) (w : t) :
  Ui.label_serial_val (ui (openSerialPort now1 now2 os w))
  = match os with
    | QSerialPort.Opens => name (settings (m_settings w))
    | QSerialPort.Refused _ => Ui.label_serial_val (ui (closeSerialPort now1 w))
    end.
Proof.
  pose proof (closeSerialPort_closed now1 w) as Hc.
  destruct (closeSerialPort_rest now1 w) as (_ & Hd & _).
  unfold openSerialPort. set (c := closeSerialPort now1 w) in *.
  unfold QSerialPort.open. simpl. rewrite Hc.
  destruct os; simpl; [rewrite Hd; apply arg_whole | reflexivity].
Qed.

Lemma openSerialPort_follows
      (now1 now2 : string) (os : QSerialPort.open_attempt) (w : t) :
  label_follows_connection w ->
  label_follows_connection (openSerialPort now1 now2 os w).
Proof.
  intros H. apply (closeSerialPort_follows now1) in H.
  unfold label_follows_connection in *. rewrite openSerialPort_label.
  destruct os as [|e].
  - now rewrite openSerialPort_port_opened.
  - rewrite openSerialPort_port_refused. simpl.
    now rewrite H, closeSerialPort_closed.
Qed.

(** What a returning send does: the port is open, the vector gives a
    line, and the line follows what was written. *)
Lemma sendActuatorPositions_returns (v : list Z) (w w' : t) :
  sendActuatorPositions v w = Returns w' ->
  exists line,
    command_line v = Returns line
    /\ QSerialPort.isOpen (m_serial w) = true
    /\ w' = with_serial (QSerialPort.write line) w
    /\ QSerialPort.written (m_serial w')
       = (QSerialPort.written (m_serial w) ++ [line])%list.
Proof.
  unfold sendActuatorPositions.
  destruct (command_line v) as [line|]; simpl; [| discriminate].
  unfold writeSerialData, Q_ASSERT.
  destruct (QSerialPort.isOpen (m_serial w)) eqn:E; simpl; [| discriminate].
  intros [= <-]. exists line. repeat split.
  simpl. unfold QSerialPort.write. now rewrite E.
Qed.

Lemma sendActuatorPositions_follows (v : list Z) (w w' : t) :
  label_follows_connection w -> sendActuatorPositions v w = Returns w' ->
  label_follows_connection w'.
Proof.
  intros H Hs. apply sendActuatorPositions_returns in Hs
    as (line & _ & Hopen & -> & _).
  unfold label_follows_connection in *. simpl.
  unfold QSerialPort.write. rewrite Hopen in *. exact H.
Qed.

Lemma deliver_follows (e : signal) (w w' : t) :
  label_follows_connection w -> deliver e w = Returns w' ->
  label_follows_connection w'.
Proof.
  intros H. destruct e as [i j|now c|now incoming|dialog now1 now2 os|now| |c|v]; simpl.
  - destruct (i <? NUM_ACTUATORS)%nat; intros [= <-]; exact H.
  - intros [= <-]. unfold onLeapConnected. destruct c; exact H.
  - unfold readSerialData, Q_ASSERT.
    destruct (QSerialPort.isOpen (m_serial w)); simpl; [| discriminate].
    intros [= <-]. exact H.
  - intros [= <-]. now apply openSerialPort_follows.
  - intros [= <-]. now apply closeSerialPort_follows.
  - destruct (Ui.button_send (ui w)).
    + now apply sendActuatorPositions_follows.
    + intros [= <-]. exact H.
  - intros [= <-]. exact H.
  - now apply sendActuatorPositions_follows.
Qed.

Lemma leap_frame_signal (v : list Z) (w : t) :
  leap_frame v w = Returns w \/ leap_frame v w = deliver (LeapFrameUpdate v) w.
Proof.
  unfold leap_frame, LeapEventListener.onFrame.
  destruct (LeapEventListener.is_leap_enabled (leap w)); [right | left]; reflexivity.
Qed.

(** The paragraphs a signal adds to the log. *)
Lemma deliver_log (e : signal) (w w' : t) :
  deliver e w = Returns w' ->
  exists added, Ui.log (ui w') = (Ui.log (ui w) ++ added)%list
                /\ (List.length added <= 2)%nat.
Proof.
  destruct e as [i j|now c|now incoming|dialog now1 now2 os|now| |c|v]; simpl.
  - destruct (i <? NUM_ACTUATORS)%nat; intros [= <-]; exists [];
      (split; [now rewrite List.app_nil_r | simpl; lia]).
  - intros [= <-]. unfold onLeapConnected.
    destruct c; eexists; (split; [reflexivity | simpl; lia]).
  - unfold readSerialData, Q_ASSERT.
    destruct (QSerialPort.isOpen (m_serial w)); simpl; [| discriminate].
    intros [= <-]. eexists. split; [reflexivity | simpl; lia].
  - intros [= <-]. destruct os as [|e].
    + rewrite openSerialPort_log_opened, closeSerialPort_log.
      rewrite <- List.app_assoc. eexists. split; [reflexivity |].
      rewrite List.length_app. simpl.
      destruct (QSerialPort.isOpen _); simpl; lia.
    + rewrite openSerialPort_log_refused, closeSerialPort_log.
      rewrite <- List.app_assoc. eexists. split; [reflexivity |].
      rewrite List.length_app. simpl.
      destruct (QSerialPort.isOpen _); simpl; lia.
  - intros [= <-]. rewrite closeSerialPort_log. eexists. split; [reflexivity |].
    destruct (QSerialPort.isOpen _); simpl; lia.
  - destruct (Ui.button_send (ui w)).
    + intros H. apply sendActuatorPositions_returns in H as (line & _ & _ & -> & _).
      exists []. split; [simpl; now rewrite List.app_nil_r | simpl; lia].
    + intros [= <-]. exists []. split; [now rewrite List.app_nil_r | simpl; lia].
  - intros [= <-]. exists []. split; [simpl; now rewrite List.app_nil_r | simpl; lia].
  - intros H. apply sendActuatorPositions_returns in H as (line & _ & _ & -> & _).
    exists []. split; [simpl; now rewrite List.app_nil_r | simpl; lia].
Qed.

(** What a signal hands to the port. *)
Lemma deliver_written (e : signal) (w w' : t) :
  deliver e w = Returns w' ->
  QSerialPort.written (m_serial w') = QSerialPort.written (m_serial w)
  \/ (is_send_signal e = true
      /\ QSerialPort.isOpen (m_serial w) = true
      /\ exists line,
          is_command line
          /\ QSerialPort.written (m_serial w')
             = (QSerialPort.written (m_serial w) ++ [line])%list).
Proof.
  destruct e as [i j|now c|now incoming|dialog now1 now2 os|now| |c|v]; simpl.
  - destruct (i <? NUM_ACTUATORS)%nat; intros [= <-]; now left.
  - intros [= <-]. left. unfold onLeapConnected. now destruct c.
  - unfold readSerialData, Q_ASSERT.
    destruct (QSerialPort.isOpen (m_serial w)); simpl; [| discriminate].
    intros [= <-]. now left.
  - intros [= <-]. left. destruct os.
    + now rewrite openSerialPort_port_opened.
    + now rewrite openSerialPort_port_refused.
  - intros [= <-]. left. destruct (closeSerialPort_rest now w) as (-> & _).
    reflexivity.
  - destruct (Ui.button_send (ui w)).
    + intros H. apply sendActuatorPositions_returns in H
        as (line & Hl & Hopen & _ & Hw).
      right. repeat split; [exact Hopen |].
      exists line. split; [now apply command_line_is_command in Hl | exact Hw].
    + intros [= <-]. now left.
  - intros [= <-]. now left.
  - intros H. apply sendActuatorPositions_returns in H
      as (line & Hl & Hopen & _ & Hw).
    right. repeat split; [exact Hopen |].
    exists line. split; [now apply command_line_is_command in Hl | exact Hw].
Qed.

Lemma deliver_positions (e : signal) (w w' : t) :
  is_slider_signal e = false -> deliver e w = Returns w' ->
  actuator_positions w' = actuator_positions w.
Proof.
  destruct e as [i j|now c|now incoming|dialog now1 now2 os|now| |c|v]; simpl;
    intros Hs; try discriminate Hs.
  - intros [= <-]. unfold onLeapConnected. now destruct c.
  - unfold readSerialData, Q_ASSERT.
    destruct (QSerialPort.isOpen (m_serial w)); simpl; [| discriminate].
    now intros [= <-].
  - intros [= <-]. now rewrite openSerialPort_positions.
  - intros [= <-]. apply closeSerialPort_positions.
  - destruct (Ui.button_send (ui w)).
    + apply sendActuatorPositions_positions.
    + now intros [= <-].
  - now intros [= <-].
  - apply sendActuatorPositions_positions.
Qed.

End Frames.

Section Sequences.

Import SerialSettingsDialog StewartPlatform.

Lemma reachable_label_follows_connection (w : t) :
  reachable w -> label_follows_connection w.
Proof.
  induction 1 as [ui0 dialog listener | e w w' _ IH Hd | v w w' _ IH Hf].
  - reflexivity.
  - exact (deliver_follows e w w' IH Hd).
  - destruct (leap_frame_signal v w) as [E|E]; rewrite E in Hf.
    + now injection Hf as <-.
    + exact (deliver_follows _ w w' IH Hf).
Qed.

Lemma run_cons (e : signal) (r : list signal) (w w' : t) :
  run (e :: r) w = Returns w' ->
  exists w1, deliver e w = Returns w1 /\ run r w1 = Returns w'.
Proof.
  simpl. destruct (deliver e w) as [w1|]; simpl; [| discriminate].
  intros H. now exists w1.
Qed.

Lemma deliver_leap_label (e : signal) (w w' : t) :
  deliver e w = Returns w' ->
  Ui.label_leap_val (ui w')
  = match e with
    | LeapConnected _ true => "Connected"%string
    | LeapConnected _ false => "Disconnected"%string
    | _ => Ui.label_leap_val (ui w)
    end.
Proof.
  destruct e as [i j|now c|now incoming|dialog now1 now2 os|now| |c|v]; simpl.
  - destruct (i <? NUM_ACTUATORS)%nat; now intros [= <-].
  - intros [= <-]. unfold onLeapConnected. now destruct c.
  - unfold readSerialData, Q_ASSERT.
    destruct (QSerialPort.isOpen (m_serial w)); simpl; [| discriminate].
    now intros [= <-].
  - intros [= <-]. now destruct (openSerialPort_rest now1 now2 os (set_m_settings dialog w))
      as (_ & _ & _ & -> & _).
  - intros [= <-]. now destruct (closeSerialPort_rest now w) as (_ & _ & _ & -> & _).
  - destruct (Ui.button_send (ui w)).
    + intros H. now apply sendActuatorPositions_returns in H as (line & _ & _ & -> & _).
    + now intros [= <-].
  - now intros [= <-].
  - intros H. now apply sendActuatorPositions_returns in H as (line & _ & _ & -> & _).
Qed.

Lemma deliver_leap_box (e : signal) (w w' : t) :
  deliver e w = Returns w' ->
  match e with
  | enable_leap_motion_toggled c =>
      Ui.actuatorBox (ui w') = negb c
      /\ LeapEventListener.is_leap_enabled (leap w') = c
  | _ =>
      Ui.actuatorBox (ui w') = Ui.actuatorBox (ui w)
      /\ LeapEventListener.is_leap_enabled (leap w')
         = LeapEventListener.is_leap_enabled (leap w)
  end.
Proof.
  destruct e as [i j|now c|now incoming|dialog now1 now2 os|now| |c|v]; simpl.
  - destruct (i <? NUM_ACTUATORS)%nat; now intros [= <-].
  - intros [= <-]. unfold onLeapConnected. now destruct c.
  - unfold readSerialData, Q_ASSERT.
    destruct (QSerialPort.isOpen (m_serial w)); simpl; [| discriminate].
    now intros [= <-].
  - intros [= <-].
    destruct (openSerialPort_rest now1 now2 os (set_m_settings dialog w))
      as (_ & -> & _ & _ & ->). now split.
  - intros [= <-]. destruct (closeSerialPort_rest now w) as (_ & _ & -> & _ & ->).
    now split.
  - destruct (Ui.button_send (ui w)).
    + intros H. apply sendActuatorPositions_returns in H as (line & _ & _ & -> & _).
      now split.
    + now intros [= <-].
  - now intros [= <-].
  - intros H. apply sendActuatorPositions_returns in H as (line & _ & _ & -> & _).
    now split.
Qed.

End Sequences.

(** X4.  In every state the window can reach, the serial status display
    and the send button agree with the connection: the button is enabled
    exactly when the port is open, and the label shows the open port's name
    and reads "Disconnected" while the port is closed. *)
Theorem reachable_status_follows_connection (w : StewartPlatform.t) :
  StewartPlatform.reachable w ->
  Ui.button_send (StewartPlatform.ui w)
  = QSerialPort.isOpen (StewartPlatform.m_serial w)
  /\ Ui.label_serial_val (StewartPlatform.ui w)
     = (if QSerialPort.isOpen (StewartPlatform.m_serial w)
        then QSerialPort.portName (StewartPlatform.m_serial w)
        else "Disconnected"%string).
Proof.
  intros R. split.
  - now apply reachable_send_follows_connection.
  - now apply reachable_label_follows_connection.
Qed.

Lemma reachable_status_follows_connection_witness :
  Ui.button_send (StewartPlatform.ui session_connected) = true
  /\ Ui.label_serial_val (StewartPlatform.ui session_connected) = "COM3"%string.
Proof.
  exact (reachable_status_follows_connection session_connected
                                             session_connected_reachable).
Defined.

(** X5.  Pressing send in a reachable state never fails an assertion.
    With the button disabled nothing happens.  With it enabled the port is
    given exactly one more line, which reads back as the six actuator
    positions of that moment, and nothing else in the window changes. *)
Theorem manual_send_effect (w : StewartPlatform.t) :
  StewartPlatform.reachable w ->
  (Ui.button_send (StewartPlatform.ui w) = false ->
   StewartPlatform.deliver StewartPlatform.button_send_clicked w = Returns w)
  /\ (Ui.button_send (StewartPlatform.ui w) = true ->
      exists w' line,
        StewartPlatform.deliver StewartPlatform.button_send_clicked w = Returns w'
        /\ decode line = Some (StewartPlatform.actuator_positions w)
        /\ QSerialPort.written (StewartPlatform.m_serial w')
           = (QSerialPort.written (StewartPlatform.m_serial w) ++ [line])%list
        /\ QSerialPort.isOpen (StewartPlatform.m_serial w') = true
        /\ StewartPlatform.ui w' = StewartPlatform.ui w
        /\ StewartPlatform.actuator_positions w' = StewartPlatform.actuator_positions w
        /\ StewartPlatform.leap w' = StewartPlatform.leap w).
Proof.
  intros R. split; intros Hb; simpl; rewrite Hb; [reflexivity |].
  pose proof (reachable_send_follows_connection w R) as Hs.
  unfold StewartPlatform.send_follows_connection in Hs. rewrite Hb in Hs.
  pose proof (reachable_six_positions w R) as H6.
  destruct (StewartPlatform.actuator_positions w)
    as [|v1 [|v2 [|v3 [|v4 [|v5 [|v6 [|x rest]]]]]]] eqn:E; try discriminate H6.
  unfold StewartPlatform.sendActuatorPositions.
  rewrite command_line_wire_format. cbn [bind].
  unfold StewartPlatform.writeSerialData. rewrite <- Hs. cbn [Q_ASSERT bind].
  eexists. exists (wire_format v1 v2 v3 v4 v5 v6).
  split; [reflexivity |]. split; [apply decode_wire_format |].
  unfold StewartPlatform.with_serial, QSerialPort.write. cbn. rewrite <- Hs.
  repeat split. exact E.
Qed.

Lemma manual_send_effect_witness :
  exists w',
    StewartPlatform.deliver StewartPlatform.button_send_clicked session_connected
    = Returns w'
    /\ QSerialPort.written (StewartPlatform.m_serial w')
       = [("0 0 0 0 0 0" ++ newline)%string].
Proof.
  destruct (manual_send_effect session_connected session_connected_reachable)
    as [_ H].
  destruct (H eq_refl) as (w' & line & Hw & _ & Hwritten & _).
  exists w'. split; [exact Hw |].
  clear Hwritten. injection Hw as <-. reflexivity.
Defined.







(** X9.  Only the sliders move the actuator positions.  A sequence of
    signals with no slider signal in it (serial input, Leap frames and
    connection events, opening and closing the port, sending, toggling the
    Leap box) leaves the six positions as they were. *)
Theorem run_positions_kept (es : list StewartPlatform.signal) (w w' : StewartPlatform.t) :
  forallb (fun e => negb (is_slider_signal e)) es = true ->
  StewartPlatform.run es w = Returns w' ->
  StewartPlatform.actuator_positions w' = StewartPlatform.actuator_positions w.
Proof.
  revert w. induction es as [|e r IH]; intros w Hs Hrun.
  - simpl in Hrun. now injection Hrun as <-.
  - simpl in Hs. apply andb_true_iff in Hs as [He Hr].
    apply negb_true_iff in He.
    apply run_cons in Hrun as (w1 & Hd & Hrun).
    rewrite (IH w1 Hr Hrun). exact (deliver_positions e w w1 He Hd).
Qed.

Lemma run_positions_kept_witness :
  StewartPlatform.actuator_positions
    (StewartPlatform.closeSerialPort "10:00:09"
       (StewartPlatform.enableLeapMotion true session_connected))
  = StewartPlatform.actuator_positions session_connected.
Proof.
  exact (run_positions_kept
           [StewartPlatform.enable_leap_motion_toggled true;
            StewartPlatform.errorOccurred "10:00:09"]
           session_connected _ eq_refl eq_refl).
Defined.

(** X10.  The Leap status label shows the latest connection event of the
    listener: after any sequence of signals it reads "Connected" if the
    last [LeapConnected] signal carried true, "Disconnected" if it carried
    false, and is what it was if the sequence has no such signal. *)
Theorem run_leap_label (es : list StewartPlatform.signal) (w w' : StewartPlatform.t) :
  StewartPlatform.run es w = Returns w' ->
  Ui.label_leap_val (StewartPlatform.ui w')
  = match last_LeapConnected es with
    | Some true => "Connected"%string
    | Some false => "Disconnected"%string
    | None => Ui.label_leap_val (StewartPlatform.ui w)
    end.
Proof.
  revert w. induction es as [|e r IH]; intros w Hrun.
  - simpl in Hrun. now injection Hrun as <-.
  - apply run_cons in Hrun as (w1 & Hd & Hr).
    rewrite (IH w1 Hr). simpl.
    destruct (last_LeapConnected r) as [c|]; [reflexivity |].
    rewrite (deliver_leap_label e w w1 Hd).
    destruct e as [i j|now [|]|now incoming|dialog now1 now2 os|now| |c|v]; reflexivity.
Qed.

Lemma run_leap_label_witness :
  Ui.label_leap_val
    (StewartPlatform.ui
       (StewartPlatform.onLeapConnected "10:00:03" true
          (StewartPlatform.closeSerialPort "10:00:02"
             (StewartPlatform.onLeapConnected "10:00:01" false session_connected))))
  = "Connected"%string.
Proof.
  exact (run_leap_label
           [StewartPlatform.LeapConnected "10:00:01" false;
            StewartPlatform.errorOccurred "10:00:02";
            StewartPlatform.LeapConnected "10:00:03" true]
           session_connected _ eq_refl).
Defined.

(** X11.  The actuator box and the listener's flag follow the latest
    toggle of the Leap box: after any sequence of signals whose last toggle
    carried [c], the box is enabled exactly when [c] is false and the flag
    equals [c]; no other signal touches either, so with no toggle in the
    sequence both are what they were. *)
Theorem run_leap_toggle (es : list StewartPlatform.signal) (w w' : StewartPlatform.t) :
  StewartPlatform.run es w = Returns w' ->
  match last_toggled es with
  | Some c =>
      Ui.actuatorBox (StewartPlatform.ui w') = negb c
      /\ LeapEventListener.is_leap_enabled (StewartPlatform.leap w') = c
  | None =>
      Ui.actuatorBox (StewartPlatform.ui w') = Ui.actuatorBox (StewartPlatform.ui w)
      /\ LeapEventListener.is_leap_enabled (StewartPlatform.leap w')
         = LeapEventListener.is_leap_enabled (StewartPlatform.leap w)
  end.
Proof.
  revert w. induction es as [|e r IH]; intros w Hrun.
  - simpl in Hrun. injection Hrun as <-. now split.
  - apply run_cons in Hrun as (w1 & Hd & Hr).
    specialize (IH w1 Hr). simpl.
    destruct (last_toggled r) as [c|]; [exact IH |].
    destruct IH as [-> ->].
    pose proof (deliver_leap_box e w w1 Hd) as H.
    destruct e as [i j|now c|now incoming|dialog now1 now2 os|now| |c|v]; exact H.
Qed.

Lemma run_leap_toggle_witness :
  let w' := StewartPlatform.closeSerialPort "10:00:09"
              (StewartPlatform.enableLeapMotion true session_connected) in
  Ui.actuatorBox (StewartPlatform.ui w') = false
  /\ LeapEventListener.is_leap_enabled (StewartPlatform.leap w') = true.
Proof.
  exact (run_leap_toggle
           [StewartPlatform.enable_leap_motion_toggled true;
            StewartPlatform.errorOccurred "10:00:09"]
           session_connected _ eq_refl).
Defined.

(** ** The manual controls *)
Section ManualControls.

Import Manual.

Lemma replace_nth_same {A : Type} (i : nat) (x : A) (l : list A) :
  nth_error l i = Some x -> replace_nth i x l = l.
Proof.
  revert i. induction l as [|y r IH]; intros [|i]; simpl; try discriminate.
  - now intros [= ->].
  - intros H. now rewrite IH.
Qed.

Lemma replace_nth_hit {A : Type} (i : nat) (x y : A) (l : list A) :
  nth_error l i = Some y -> nth_error (replace_nth i x l) i = Some x.
Proof.
  revert i. induction l as [|z r IH]; intros [|i]; simpl; try discriminate.
  - reflexivity.
  - apply IH.
Qed.

Lemma replace_nth_miss {A : Type} (i k : nat) (x : A) (l : list A) :
  k <> i -> nth_error (replace_nth i x l) k = nth_error l k.
Proof.
  revert i k. induction l as [|z r IH]; intros [|i] [|k] H; simpl;
    try reflexivity; try congruence.
  apply IH. congruence.
Qed.

Lemma replace_nth_twice {A : Type} (i : nat) (x y : A) (l : list A) :
  replace_nth i x (replace_nth i y l) = replace_nth i x l.
Proof.
  revert i. induction l as [|z r IH]; intros [|i]; simpl; try reflexivity.
  now rewrite IH.
Qed.

Lemma assign_replace_nth (i : nat) (j : Z) (v : list Z) :
  assign i j v = replace_nth i j v.
Proof.
  revert i. induction v as [|x r IH]; intros [|i]; simpl; try reflexivity.
  now rewrite IH.
Qed.

Ltac widget_cases :=
  cbn [fst snd QSlider.minimum QSlider.maximum QSlider.value
       QSpinBox.minimum QSpinBox.maximum QSpinBox.value andb];
  repeat (match goal with
          | |- context [Z.eqb ?a ?b] => destruct (Z.eqb_spec a b)
          | |- context [Z.ltb ?a ?b] => destruct (Z.ltb_spec a b)
          | |- context [Z.gtb ?a ?b] =>
              rewrite (Z.gtb_ltb a b); destruct (Z.ltb_spec b a)
          end;
          cbn [fst snd QSlider.minimum QSlider.maximum QSlider.value
               QSpinBox.minimum QSpinBox.maximum QSpinBox.value andb]).

Lemma slider_setMinimum (lo : Z) (s : QSlider.t) :
  QSlider.valid s ->
  fst (QSlider.setMinimum lo s)
  = QSlider.mk lo (Z.max (QSlider.maximum s) lo) (Z.max lo (QSlider.value s)).
Proof.
  destruct s as [mn mx v]. unfold QSlider.valid.
  cbn [QSlider.minimum QSlider.maximum QSlider.value]. intros Hv.
  unfold QSlider.setMinimum, QSlider.setRange, QSlider.setValue, QSlider.bound.
  widget_cases; f_equal; lia.
Qed.

Lemma slider_setMaximum (hi : Z) (s : QSlider.t) :
  QSlider.valid s ->
  fst (QSlider.setMaximum hi s)
  = QSlider.mk (Z.min (QSlider.minimum s) hi) hi
               (Z.min hi (QSlider.value s)).
Proof.
  destruct s as [mn mx v]. unfold QSlider.valid.
  cbn [QSlider.minimum QSlider.maximum QSlider.value]. intros Hv.
  unfold QSlider.setMaximum, QSlider.setRange, QSlider.setValue, QSlider.bound.
  widget_cases; f_equal; lia.
Qed.

Lemma slider_ranged (lo hi : Z) (s : QSlider.t) :
  QSlider.valid s -> lo <= hi ->
  fst (QSlider.setMaximum hi (fst (QSlider.setMinimum lo s)))
  = QSlider.mk lo hi (clamp lo hi (QSlider.value s)).
Proof.
  intros Hv Hlh. rewrite (slider_setMinimum lo s Hv).
  rewrite slider_setMaximum.
  - unfold clamp, QSlider.valid in *.
    cbn [QSlider.minimum QSlider.maximum QSlider.value]. f_equal; lia.
  - unfold QSlider.valid in *.
    cbn [QSlider.minimum QSlider.maximum QSlider.value]. lia.
Qed.

Lemma spin_bound (f : QSpinBox.t) (v : Z) :
  QSpinBox.bound f v
  = Z.min (QSpinBox.maximum f) (Z.max (QSpinBox.minimum f) v)
    \/ QSpinBox.maximum f < QSpinBox.minimum f.
Proof.
  unfold QSpinBox.bound. cbv zeta.
  destruct (Z.ltb_spec v (QSpinBox.minimum f));
    match goal with
    | |- context [Z.gtb ?a ?b] => rewrite (Z.gtb_ltb a b); destruct (Z.ltb_spec b a)
    end; lia.
Qed.

Lemma if_ltb_max (a b : Z) : (if a <? b then b else a) = Z.max a b.
Proof. destruct (Z.ltb_spec a b); lia. Qed.

Lemma if_gtb_max (a b : Z) : (if a >? b then a else b) = Z.max a b.
Proof. rewrite Z.gtb_ltb. destruct (Z.ltb_spec b a); lia. Qed.

Lemma if_ltb_min (a b : Z) : (if a <? b then a else b) = Z.min a b.
Proof. destruct (Z.ltb_spec a b); lia. Qed.

Lemma spin_setRange (mn mx : Z) (f : QSpinBox.t) :
  fst (QSpinBox.setRange mn mx f)
  = QSpinBox.mk mn (Z.max mn mx)
                (Z.min (Z.max mn mx) (Z.max mn (QSpinBox.value f))).
Proof.
  unfold QSpinBox.setRange, QSpinBox.setValue. cbv zeta. rewrite if_ltb_max.
  set (f' := QSpinBox.mk mn (Z.max mn mx) (QSpinBox.value f)).
  assert (Hb : forall v, QSpinBox.bound f' v = Z.min (Z.max mn mx) (Z.max mn v)).
  { intros v. destruct (spin_bound f' v) as [E|E]; [exact E |].
    unfold f' in E. cbn [QSpinBox.minimum QSpinBox.maximum] in E. lia. }
  rewrite !Hb. cbn [QSpinBox.value QSpinBox.minimum QSpinBox.maximum f'].
  unfold f'. cbn [QSpinBox.value QSpinBox.minimum QSpinBox.maximum].
  repeat (match goal with
          | |- context [Z.eqb ?a ?b] => destruct (Z.eqb_spec a b)
          end; cbn [fst]); f_equal; lia.
Qed.

Lemma field_setMinimum (lo : Z) (f : QSpinBox.t) :
  QSpinBox.valid f ->
  fst (QSpinBox.setMinimum lo f)
  = QSpinBox.mk lo (Z.max (QSpinBox.maximum f) lo) (Z.max lo (QSpinBox.value f)).
Proof.
  unfold QSpinBox.valid, QSpinBox.setMinimum. intros Hv.
  rewrite if_gtb_max, spin_setRange. f_equal; lia.
Qed.

Lemma field_setMaximum (hi : Z) (f : QSpinBox.t) :
  QSpinBox.valid f ->
  fst (QSpinBox.setMaximum hi f)
  = QSpinBox.mk (Z.min (QSpinBox.minimum f) hi) hi
                (Z.min hi (QSpinBox.value f)).
Proof.
  unfold QSpinBox.valid, QSpinBox.setMaximum. intros Hv.
  rewrite if_ltb_min, spin_setRange. f_equal; lia.
Qed.

Lemma field_ranged (lo hi : Z) (f : QSpinBox.t) :
  QSpinBox.valid f -> lo <= hi ->
  fst (QSpinBox.setMaximum hi (fst (QSpinBox.setMinimum lo f)))
  = QSpinBox.mk lo hi (clamp lo hi (QSpinBox.value f)).
Proof.
  intros Hv Hlh. rewrite (field_setMinimum lo f Hv).
  rewrite field_setMaximum.
  - unfold clamp, QSpinBox.valid in *.
    cbn [QSpinBox.minimum QSpinBox.maximum QSpinBox.value]. f_equal; lia.
  - unfold QSpinBox.valid in *.
    cbn [QSpinBox.minimum QSpinBox.maximum QSpinBox.value]. lia.
Qed.

End ManualControls.

Section Cascade.
Import Manual.

Lemma slider_bound_in (lo hi v : Z) (s : QSlider.t) :
  QSlider.minimum s = lo -> QSlider.maximum s = hi ->
  QSlider.bound s v = clamp lo hi v.
Proof. unfold QSlider.bound, clamp. now intros -> ->. Qed.

Lemma field_bound_in (lo hi v : Z) (f : QSpinBox.t) :
  QSpinBox.minimum f = lo -> QSpinBox.maximum f = hi -> lo <= hi ->
  QSpinBox.bound f v = clamp lo hi v.
Proof.
  intros Hl Hh Hlh. destruct (spin_bound f v) as [E|E]; [| lia].
  rewrite E, Hl, Hh. unfold clamp. lia.
Qed.

Lemma clamp_fixed (lo hi x : Z) : lo <= x <= hi -> clamp lo hi x = x.
Proof. unfold clamp. lia. Qed.

Lemma clamp_in (lo hi v : Z) : lo <= hi -> lo <= clamp lo hi v <= hi.
Proof. unfold clamp. lia. Qed.

(** [setValue] on a slider of range [lo..hi]. *)
Lemma slider_setValue_in (lo hi v : Z) (s : QSlider.t) :
  QSlider.minimum s = lo -> QSlider.maximum s = hi ->
  QSlider.setValue v s
  = if QSlider.value s =? clamp lo hi v then (s, None)
    else (QSlider.mk lo hi (clamp lo hi v), Some (clamp lo hi v)).
Proof.
  intros Hl Hh. unfold QSlider.setValue. cbv zeta.
  rewrite (slider_bound_in lo hi v s Hl Hh), Hl, Hh. reflexivity.
Qed.

Lemma field_setValue_in (lo hi v : Z) (f : QSpinBox.t) :
  QSpinBox.minimum f = lo -> QSpinBox.maximum f = hi -> lo <= hi ->
  QSpinBox.setValue v f
  = if QSpinBox.value f =? clamp lo hi v then (f, None)
    else (QSpinBox.mk lo hi (clamp lo hi v), Some (clamp lo hi v)).
Proof.
  intros Hl Hh Hlh. unfold QSpinBox.setValue. cbv zeta.
  rewrite (field_bound_in lo hi v f Hl Hh Hlh), Hl, Hh. reflexivity.
Qed.

Lemma slider_record (lo hi x : Z) (s : QSlider.t) :
  QSlider.minimum s = lo -> QSlider.maximum s = hi -> QSlider.value s = x ->
  s = QSlider.mk lo hi x.
Proof. destruct s. cbn. now intros -> -> ->. Qed.

Lemma field_record (lo hi x : Z) (f : QSpinBox.t) :
  QSpinBox.minimum f = lo -> QSpinBox.maximum f = hi -> QSpinBox.value f = x ->
  f = QSpinBox.mk lo hi x.
Proof. destruct f. cbn. now intros -> -> ->. Qed.

Lemma lambda_runs (i : nat) (x : Z) (w : StewartPlatform.t) :
  (i < NUM_ACTUATORS)%nat ->
  StewartPlatform.deliver (StewartPlatform.slider_valueChanged i x) w
  = Returns (StewartPlatform.set_actuator_positions
               (assign i x (StewartPlatform.actuator_positions w)) w).
Proof.
  intros H. cbn [StewartPlatform.deliver].
  destruct (Nat.ltb_spec i NUM_ACTUATORS); [reflexivity | lia].
Qed.

(** The slider's [setValue] with enough fuel for the signals to settle. *)
Lemma slider_setValue_settles
      (n i : nat) (v lo hi : Z) (p : Panel) (w : StewartPlatform.t)
      (field : QSpinBox.t) (slider : QSlider.t) :
  nth_error (manual_fields p) i = Some field ->
  nth_error (manual_sliders p) i = Some slider ->
  QSpinBox.minimum field = lo -> QSpinBox.maximum field = hi ->
  QSlider.minimum slider = lo -> QSlider.maximum slider = hi ->
  lo <= hi -> (i < NUM_ACTUATORS)%nat ->
  slider_setValue (S (S (S n))) i v (p, w)
  = Settled
      (if QSlider.value slider =? clamp lo hi v then (p, w)
       else (set_field i (QSpinBox.mk lo hi (clamp lo hi v))
                       (set_slider i (QSlider.mk lo hi (clamp lo hi v)) p),
             StewartPlatform.set_actuator_positions
               (assign i (clamp lo hi v) (StewartPlatform.actuator_positions w)) w)).
Proof.
  intros Hf Hs Hfl Hfh Hsl Hsh Hlh Hi.
  set (x := clamp lo hi v).
  assert (Hx : clamp lo hi x = x) by (apply clamp_fixed, clamp_in, Hlh).
  cbn [slider_setValue fst snd]. rewrite Hs.
  rewrite (slider_setValue_in lo hi v slider Hsl Hsh). fold x.
  destruct (Z.eqb_spec (QSlider.value slider) x) as [E|E]; [reflexivity |].
  (* the field's slot *)
  cbn [field_setValue fst snd set_slider set_field manual_fields manual_sliders].
  rewrite Hf, (field_setValue_in lo hi x field Hfl Hfh Hlh), Hx.
  destruct (Z.eqb_spec (QSpinBox.value field) x) as [F|F].
  - rewrite (lambda_runs i x w Hi). do 2 f_equal.
    unfold set_field, set_slider. cbn [manual_fields manual_sliders]. f_equal.
    rewrite <- (field_record lo hi x field Hfl Hfh F).
    symmetry. now apply replace_nth_same.
  - (* the slider's slot again: nothing changes *)
    cbn [slider_setValue fst snd set_slider set_field manual_fields manual_sliders].
    rewrite (replace_nth_hit i _ slider _ Hs).
    rewrite (slider_setValue_in lo hi x (QSlider.mk lo hi x) eq_refl eq_refl), Hx.
    cbn [QSlider.value]. rewrite Z.eqb_refl.
    rewrite (lambda_runs i x w Hi). reflexivity.
Qed.

Lemma field_setValue_settles
      (n i : nat) (v lo hi : Z) (p : Panel) (w : StewartPlatform.t)
      (field : QSpinBox.t) (slider : QSlider.t) :
  nth_error (manual_fields p) i = Some field ->
  nth_error (manual_sliders p) i = Some slider ->
  QSpinBox.minimum field = lo -> QSpinBox.maximum field = hi ->
  QSlider.minimum slider = lo -> QSlider.maximum slider = hi ->
  lo <= hi -> (i < NUM_ACTUATORS)%nat ->
  field_setValue (S (S (S n))) i v (p, w)
  = Settled
      (if QSpinBox.value field =? clamp lo hi v then (p, w)
       else if QSlider.value slider =? clamp lo hi v
            then (set_field i (QSpinBox.mk lo hi (clamp lo hi v)) p, w)
            else (set_field i (QSpinBox.mk lo hi (clamp lo hi v))
                            (set_slider i (QSlider.mk lo hi (clamp lo hi v)) p),
                  StewartPlatform.set_actuator_positions
                    (assign i (clamp lo hi v) (StewartPlatform.actuator_positions w)) w)).
Proof.
  intros Hf Hs Hfl Hfh Hsl Hsh Hlh Hi.
  set (x := clamp lo hi v).
  assert (Hx : clamp lo hi x = x) by (apply clamp_fixed, clamp_in, Hlh).
  cbn [field_setValue fst snd]. rewrite Hf.
  rewrite (field_setValue_in lo hi v field Hfl Hfh Hlh). fold x.
  destruct (Z.eqb_spec (QSpinBox.value field) x) as [E|E]; [reflexivity |].
  cbn [slider_setValue fst snd set_slider set_field manual_fields manual_sliders].
  rewrite Hs, (slider_setValue_in lo hi x slider Hsl Hsh), Hx.
  destruct (Z.eqb_spec (QSlider.value slider) x) as [F|F]; [reflexivity |].
  cbn [field_setValue fst snd set_slider set_field manual_fields manual_sliders].
  rewrite (replace_nth_hit i _ field _ Hf).
  rewrite (field_setValue_in lo hi x (QSpinBox.mk lo hi x) eq_refl eq_refl Hlh), Hx.
  cbn [QSpinBox.value]. rewrite Z.eqb_refl.
  rewrite (lambda_runs i x w Hi). reflexivity.
Qed.

End Cascade.

(** X12.  The range part of the constructor's loop.  On six spin boxes
    and six sliders, each holding a value inside its own range, and with
    the lower bound not above the upper, the loop returns; afterwards every
    one of the twelve widgets has the range from the lower to the upper
    bound and shows its former value brought into that range.  The
    actuator positions are zero whatever the widgets show: a pair is in
    step with its position after construction exactly when both of its
    widgets show zero. *)
Theorem constructor_loop_ranges
        (lo hi : Z) (p : Manual.Panel)
        (ui0 : Ui.t) (dialog : SerialSettingsDialog.t) (listener : LeapEventListener.t) :
  List.length (Manual.manual_fields p) = NUM_ACTUATORS ->
  List.length (Manual.manual_sliders p) = NUM_ACTUATORS ->
  Forall QSpinBox.valid (Manual.manual_fields p) ->
  Forall QSlider.valid (Manual.manual_sliders p) ->
  lo <= hi ->
  let p' :=
    Manual.mk
      (map (fun f => QSpinBox.mk lo hi (Manual.clamp lo hi (QSpinBox.value f)))
           (Manual.manual_fields p))
      (map (fun s => QSlider.mk lo hi (Manual.clamp lo hi (QSlider.value s)))
           (Manual.manual_sliders p)) in
  Manual.constructor_loop NUM_ACTUATORS 0 lo hi p = Returns p'
  /\ (forall i : nat, (i < NUM_ACTUATORS)%nat -> Manual.paired i lo hi p')
  /\ (forall (i : nat) (f : QSpinBox.t) (s : QSlider.t),
         nth_error (Manual.manual_fields p) i = Some f ->
         nth_error (Manual.manual_sliders p) i = Some s ->
         (Manual.in_step i (p', StewartPlatform.constructor ui0 dialog listener)
          <-> Manual.clamp lo hi (QSpinBox.value f) = 0
              /\ Manual.clamp lo hi (QSlider.value s) = 0)).
Proof.
  destruct p as [fields sliders]. cbn [Manual.manual_fields Manual.manual_sliders].
  intros Hlf Hls Hvf Hvs Hlh.
  destruct fields as [|f1 [|f2 [|f3 [|f4 [|f5 [|f6 [|f7 fr]]]]]]]; try discriminate Hlf.
  destruct sliders as [|s1 [|s2 [|s3 [|s4 [|s5 [|s6 [|s7 sr]]]]]]]; try discriminate Hls.
  repeat match goal with
         | H : Forall _ (_ :: _) |- _ => inversion H; subst; clear H
         end.
  split; [| split].
  - unfold NUM_ACTUATORS.
    cbn -[QSpinBox.setMinimum QSpinBox.setMaximum QSlider.setMinimum QSlider.setMaximum].
    rewrite !field_ranged, !slider_ranged by assumption. reflexivity.
  - intros i Hi. unfold NUM_ACTUATORS in Hi.
    assert (Hc : forall v, lo <= Manual.clamp lo hi v <= hi)
      by (intros v; unfold Manual.clamp; lia).
    destruct i as [|[|[|[|[|[|i]]]]]]; try lia;
      (eexists; eexists; split; [reflexivity | split; [reflexivity |]];
       cbn [QSpinBox.minimum QSpinBox.maximum QSpinBox.value
            QSlider.minimum QSlider.maximum QSlider.value];
       repeat split; try reflexivity; try exact Hlh; apply Hc).
  - intros i f s Hf Hs.
    destruct i as [|[|[|[|[|[|i]]]]]];
      try (destruct i; discriminate Hf);
      cbn in Hf, Hs; injection Hf as <-; injection Hs as <-;
      (split;
       [ intros (x & f' & s' & Ef & Es & Ep & Hfv & Hsv);
         cbn in Ef, Es, Ep; injection Ef as <-; injection Es as <-;
         injection Ep as <-; cbn in Hfv, Hsv; now split
       | intros [Hfv Hsv]; exists 0; eexists; eexists;
         split; [reflexivity | split; [reflexivity | split; [reflexivity |]]];
         cbn; now split ]).
Qed.

Lemma constructor_loop_ranges_witness :
  Manual.constructor_loop NUM_ACTUATORS 0 (-100) 50 Manual.form_panel
  = Returns (Manual.mk (repeat (QSpinBox.mk (-100) 50 0) 6)
                       (repeat (QSlider.mk (-100) 50 0) 6)).
Proof.
  assert (Hf : Forall QSpinBox.valid (Manual.manual_fields Manual.form_panel))
    by (repeat constructor; unfold QSpinBox.valid; simpl; lia).
  assert (Hs : Forall QSlider.valid (Manual.manual_sliders Manual.form_panel))
    by (repeat constructor; unfold QSlider.valid; simpl; lia).
  assert (Hlh : -100 <= 50) by lia.
  destruct (constructor_loop_ranges (-100) 50 Manual.form_panel ui_form
                                    (SerialSettingsDialog.mk COM3)
                                    (LeapEventListener.mk false)
                                    eq_refl eq_refl Hf Hs Hlh) as [H _].
  exact H.
Defined.

Section Steps.
Import Manual.

Lemma in_step_ext (k : nat) (s s' : Panel * StewartPlatform.t) :
  nth_error (manual_fields (fst s')) k = nth_error (manual_fields (fst s)) k ->
  nth_error (manual_sliders (fst s')) k = nth_error (manual_sliders (fst s)) k ->
  nth_error (StewartPlatform.actuator_positions (snd s')) k
  = nth_error (StewartPlatform.actuator_positions (snd s)) k ->
  in_step k s -> in_step k s'.
Proof.
  intros Hf Hs Hp (x & f & sl & Ef & Es & Ep & Hfv & Hsv).
  exists x, f, sl. rewrite Hf, Hs, Hp. repeat split; assumption.
Qed.

(** Pair [i] after both widgets were set to [x] and the position written. *)
Lemma in_step_set (i k : nat) (lo hi x : Z) (p : Panel) (w : StewartPlatform.t)
      (field : QSpinBox.t) (slider : QSlider.t) :
  nth_error (manual_fields p) i = Some field ->
  nth_error (manual_sliders p) i = Some slider ->
  (in_step k (p, w) \/
   (k = i /\ (i < List.length (StewartPlatform.actuator_positions w))%nat)) ->
  in_step k (set_field i (QSpinBox.mk lo hi x) (set_slider i (QSlider.mk lo hi x) p),
             StewartPlatform.set_actuator_positions
               (assign i x (StewartPlatform.actuator_positions w)) w).
Proof.
  intros Hf Hs H.
  destruct (Nat.eq_dec k i) as [->|Hk].
  - assert (Hp : exists y, nth_error (StewartPlatform.actuator_positions w) i = Some y).
    { destruct H as [(y & _ & _ & _ & _ & Ep & _) | [_ Hlen]]; [now exists y |].
      destruct (nth_error (StewartPlatform.actuator_positions w) i) as [y|] eqn:E;
        [now exists y | apply nth_error_None in E; lia]. }
    destruct Hp as [y Hy].
    exists x, (QSpinBox.mk lo hi x), (QSlider.mk lo hi x).
    cbn [fst snd set_field set_slider manual_fields manual_sliders
         StewartPlatform.set_actuator_positions StewartPlatform.actuator_positions].
    rewrite assign_replace_nth.
    rewrite (replace_nth_hit i _ field _ Hf), (replace_nth_hit i _ slider _ Hs),
      (replace_nth_hit i _ y _ Hy).
    repeat split.
  - destruct H as [H | [E _]]; [| congruence].
    revert H. apply in_step_ext;
      cbn [fst snd set_field set_slider manual_fields manual_sliders
           StewartPlatform.set_actuator_positions StewartPlatform.actuator_positions];
      rewrite ?assign_replace_nth; now apply replace_nth_miss.
Qed.

Lemma paired_set (i : nat) (lo hi x : Z) (p : Panel)
      (field : QSpinBox.t) (slider : QSlider.t) :
  nth_error (manual_fields p) i = Some field ->
  nth_error (manual_sliders p) i = Some slider ->
  lo <= x <= hi ->
  paired i lo hi (set_field i (QSpinBox.mk lo hi x)
                            (set_slider i (QSlider.mk lo hi x) p)).
Proof.
  intros Hf Hs Hx. exists (QSpinBox.mk lo hi x), (QSlider.mk lo hi x).
  cbn [set_field set_slider manual_fields manual_sliders].
  rewrite (replace_nth_hit i _ field _ Hf), (replace_nth_hit i _ slider _ Hs).
  cbn. repeat split; lia.
Qed.

End Steps.

(** X13.  Moving slider [i] of a pair that shares one range.  The signals
    between slider and field settle, for any amount of fuel from three
    nested calls on.  The value asked for is brought into the range.  If
    the slider already shows it, nothing is emitted and nothing changes.
    Otherwise slider and field both show it and position [i] is set to
    it; the other widgets, the other positions and the rest of the window
    are untouched. *)
Theorem slider_move_settles
        (i : nat) (lo hi : Z) (p : Manual.Panel) (w : StewartPlatform.t) :
  Manual.paired i lo hi p -> (i < NUM_ACTUATORS)%nat ->
  exists slider,
    nth_error (Manual.manual_sliders p) i = Some slider
    /\ forall (n : nat) (v : Z),
        Manual.slider_setValue (S (S (S n))) i v (p, w)
        = Manual.Settled
            (if QSlider.value slider =? Manual.clamp lo hi v then (p, w)
             else (Manual.set_field i (QSpinBox.mk lo hi (Manual.clamp lo hi v))
                     (Manual.set_slider i (QSlider.mk lo hi (Manual.clamp lo hi v)) p),
                   StewartPlatform.set_actuator_positions
                     (assign i (Manual.clamp lo hi v)
                             (StewartPlatform.actuator_positions w)) w)).
Proof.
  intros (field & slider & Hf & Hs & Hfl & Hfh & Hsl & Hsh & Hlh & _) Hi.
  exists slider. split; [exact Hs |].
  intros n v. now apply slider_setValue_settles with (field := field).
Qed.

Lemma slider_move_settles_witness :
  Manual.slider_setValue 3 2 150 (Manual.form_panel, session_start)
  = Manual.Settled
      (Manual.set_field 2 (QSpinBox.mk 0 99 99)
         (Manual.set_slider 2 (QSlider.mk 0 99 99) Manual.form_panel),
       StewartPlatform.set_actuator_positions [0; 0; 99; 0; 0; 0] session_start).
Proof.
  assert (Hp : Manual.paired 2 0 99 Manual.form_panel).
  { exists (QSpinBox.mk 0 99 0), (QSlider.mk 0 99 0). simpl. repeat split; lia. }
  assert (Hi : (2 < NUM_ACTUATORS)%nat) by (unfold NUM_ACTUATORS; lia).
  destruct (slider_move_settles 2 0 99 Manual.form_panel session_start Hp Hi)
    as (slider & Hs & H).
  rewrite (H 0%nat 150). injection Hs as <-. reflexivity.
Defined.

(** X14.  Editing field [i] of a pair that shares one range.  The signals
    settle from three nested calls on.  If the field already shows the
    value (brought into the range), nothing changes.  Otherwise the field
    shows it; the slider follows and position [i] is set to it, unless the
    slider showed that value already: then the slider emits nothing, the
    lambda does not run and position [i] stays as it was. *)
Theorem field_edit_settles
        (i : nat) (lo hi : Z) (p : Manual.Panel) (w : StewartPlatform.t) :
  Manual.paired i lo hi p -> (i < NUM_ACTUATORS)%nat ->
  exists field slider,
    nth_error (Manual.manual_fields p) i = Some field
    /\ nth_error (Manual.manual_sliders p) i = Some slider
    /\ forall (n : nat) (v : Z),
        Manual.field_setValue (S (S (S n))) i v (p, w)
        = Manual.Settled
            (if QSpinBox.value field =? Manual.clamp lo hi v then (p, w)
             else if QSlider.value slider =? Manual.clamp lo hi v
                  then (Manual.set_field i (QSpinBox.mk lo hi (Manual.clamp lo hi v)) p, w)
                  else (Manual.set_field i (QSpinBox.mk lo hi (Manual.clamp lo hi v))
                          (Manual.set_slider i
                             (QSlider.mk lo hi (Manual.clamp lo hi v)) p),
                        StewartPlatform.set_actuator_positions
                          (assign i (Manual.clamp lo hi v)
                                  (StewartPlatform.actuator_positions w)) w)).
Proof.
  intros (field & slider & Hf & Hs & Hfl & Hfh & Hsl & Hsh & Hlh & _) Hi.
  exists field, slider. split; [exact Hf |]. split; [exact Hs |].
  intros n v. now apply field_setValue_settles.
Qed.

Lemma field_edit_settles_witness :
  Manual.field_setValue 3 0 (-5)
    (Manual.set_field 0 (QSpinBox.mk 0 99 7) Manual.form_panel, session_start)
  = Manual.Settled
      (Manual.set_field 0 (QSpinBox.mk 0 99 0) Manual.form_panel, session_start).
Proof.
  assert (Hp : Manual.paired 0 0 99
                 (Manual.set_field 0 (QSpinBox.mk 0 99 7) Manual.form_panel)).
  { exists (QSpinBox.mk 0 99 7), (QSlider.mk 0 99 0). simpl. repeat split; lia. }
  assert (Hi : (0 < NUM_ACTUATORS)%nat) by (unfold NUM_ACTUATORS; lia).
  destruct (field_edit_settles 0 0 99 _ session_start Hp Hi)
    as (field & slider & Hf & Hs & H).
  rewrite (H 0%nat (-5)). injection Hf as <-. injection Hs as <-. reflexivity.
Defined.

(** X15.  Once field, slider and position of an index hold the same
    value, moving a slider or editing a field keeps it so, at that index
    and at every other; the moved pair keeps its range.  Moving a slider to
    a value it did not show brings its pair in step even if it was not. *)
Theorem manual_pairs_stay_in_step
        (i k n : nat) (v lo hi : Z) (p : Manual.Panel) (w : StewartPlatform.t) :
  Manual.paired i lo hi p -> (i < NUM_ACTUATORS)%nat ->
  (Manual.in_step k (p, w) ->
   (exists s', Manual.slider_setValue (S (S (S n))) i v (p, w) = Manual.Settled s'
               /\ Manual.in_step k s' /\ Manual.paired i lo hi (fst s'))
   /\ (exists s', Manual.field_setValue (S (S (S n))) i v (p, w) = Manual.Settled s'
                  /\ Manual.in_step k s' /\ Manual.paired i lo hi (fst s')))
  /\ ((i < List.length (StewartPlatform.actuator_positions w))%nat ->
      forall s', Manual.slider_setValue (S (S (S n))) i v (p, w) = Manual.Settled s' ->
                 s' <> (p, w) -> Manual.in_step i s').
Proof.
  intros Hp Hi.
  pose proof Hp as (field & slider & Hf & Hs & Hfl & Hfh & Hsl & Hsh & Hlh & Hfv & Hsv).
  pose proof (clamp_in lo hi v Hlh) as Hx.
  pose proof (slider_setValue_settles n i v lo hi p w field slider
                                      Hf Hs Hfl Hfh Hsl Hsh Hlh Hi) as Eslider.
  pose proof (field_setValue_settles n i v lo hi p w field slider
                                     Hf Hs Hfl Hfh Hsl Hsh Hlh Hi) as Efield.
  split.
  - intros Hstep. split.
    + eexists. split; [exact Eslider |].
      destruct (Z.eqb_spec (QSlider.value slider) (Manual.clamp lo hi v)).
      * split; [exact Hstep | exact Hp].
      * split; [apply in_step_set with (field := field) (slider := slider); auto
               | now apply paired_set with (field := field) (slider := slider)].
    + eexists. split; [exact Efield |].
      destruct (Z.eqb_spec (QSpinBox.value field) (Manual.clamp lo hi v)) as [F|F];
        [split; [exact Hstep | exact Hp] |].
      destruct (Z.eqb_spec (QSlider.value slider) (Manual.clamp lo hi v)) as [S|S].
      * split.
        -- destruct (Nat.eq_dec k i) as [->|Hk].
           ++ destruct Hstep as (x & f' & s' & Ef & Es & _ & Hfx & Hsx).
              cbn [fst Manual.manual_fields Manual.manual_sliders] in Ef, Es.
              rewrite Hf in Ef. rewrite Hs in Es.
              injection Ef as <-. injection Es as <-. congruence.
           ++ revert Hstep. apply in_step_ext;
                cbn [fst snd Manual.set_field Manual.manual_fields Manual.manual_sliders];
                try reflexivity.
              now apply replace_nth_miss.
        -- exists (QSpinBox.mk lo hi (Manual.clamp lo hi v)), slider.
           cbn [fst Manual.set_field Manual.manual_fields Manual.manual_sliders].
           rewrite (replace_nth_hit i _ field _ Hf).
           cbn. repeat split; try assumption; try lia.
      * split; [apply in_step_set with (field := field) (slider := slider); auto
               | now apply paired_set with (field := field) (slider := slider)].
  - intros Hlen s' Hs' Hne. rewrite Eslider in Hs'. injection Hs' as <-.
    destruct (Z.eqb_spec (QSlider.value slider) (Manual.clamp lo hi v)).
    + now elim Hne.
    + apply in_step_set with (field := field) (slider := slider); auto.
Qed.

Lemma manual_pairs_stay_in_step_witness :
  exists s',
    Manual.slider_setValue 3 1 5 (Manual.form_panel, session_start) = Manual.Settled s'
    /\ Manual.in_step 1 s'.
Proof.
  assert (Hp : Manual.paired 1 0 99 Manual.form_panel).
  { exists (QSpinBox.mk 0 99 0), (QSlider.mk 0 99 0). simpl. repeat split; lia. }
  assert (Hi : (1 < NUM_ACTUATORS)%nat) by (unfold NUM_ACTUATORS; lia).
  assert (Hstep : Manual.in_step 1 (Manual.form_panel, session_start)).
  { exists 0, (QSpinBox.mk 0 99 0), (QSlider.mk 0 99 0). simpl. repeat split. }
  destruct (manual_pairs_stay_in_step 1 1 0 5 0 99 Manual.form_panel session_start Hp Hi)
    as [H _].
  destruct (H Hstep) as [(s' & Hs & Hin & _) _].
  exists s'. split; [exact Hs | exact Hin].
Defined.


